(** * Chunking engine of the document processor

    Shallow embedding of [chunk_text], [build_page_map] and
    [get_page_number_for_position] from
    [lambda/document-processor/extract-text/index.py], and the properties
    of the token windows, the page index and the page lookup.

    Python [int] is unbounded, so integers are [Z]; a [str] is a [string]
    whose [len] is its number of characters; a [list] is a [list]; a loop
    that may not terminate takes fuel and reports when it runs out. *)

From Stdlib Require Import ZArith List String Ascii Bool Lia DecimalString.
From Stdlib Require DecimalZ.
Import ListNotations.

Local Open Scope string_scope.
Local Open Scope list_scope.
Local Open Scope Z_scope.

(** ** Python primitives *)

Module Py.

(** An exception, by class name and message. *)
Inductive exception : Type :=
| Exception (cls : string) (msg : string).

(** What a call does: return, raise, or still run when the fuel is gone. *)
Inductive outcome (A : Type) : Type :=
| Returned (a : A)
| Raised (e : exception)
| OutOfFuel.

Arguments Returned {A} a.
Arguments Raised {A} e.
Arguments OutOfFuel {A}.

Definition bind {A B : Type} (m : outcome A) (k : A -> outcome B) : outcome B :=
  match m with
  | Returned a => k a
  | Raised e => Raised e
  | OutOfFuel => OutOfFuel
  end.

(** [len(l)] of a list and [len(s)] of a string. *)
Definition len {A : Type} (l : list A) : Z := Z.of_nat (List.length l).
Definition len_str (s : string) : Z := Z.of_nat (String.length s).

(** [str(n)], also what an f-string prints for an [int]. *)
Definition str (n : Z) : string := NilZero.string_of_int (Z.to_int n).

(** A slice bound as Python normalises it: a negative bound counts from
    the end, and every bound is clamped to [0 .. len]. *)
Definition clamp (n i : Z) : Z :=
  if i <? 0 then Z.max (i + n) 0 else Z.min i n.

(** [l[a:b]]. *)
Definition slice {A : Type} (l : list A) (a b : Z) : list A :=
  let lo := clamp (len l) a in
  let hi := clamp (len l) b in
  firstn (Z.to_nat (hi - lo)) (skipn (Z.to_nat lo) l).

(** [l[-1]] when [l] is not empty. *)
Fixpoint last_item {A : Type} (l : list A) : option A :=
  match l with
  | [] => None
  | [x] => Some x
  | _ :: r => last_item r
  end.

(** [d.get(key, default)] for a key that may be absent. *)
Definition get {A : Type} (field : option A) (default : A) : A :=
  match field with
  | Some v => v
  | None => default
  end.

(** [sep.join(parts)]. *)
Definition join (sep : string) (parts : list string) : string :=
  String.concat sep parts.

End Py.

Import Py.

Notation "x <- m ;; k" := (Py.bind m (fun x => k))
  (at level 61, m at next level, right associativity).

(** ** Data *)

(** An entry of [pages_data]; a key that is absent is [None]. *)
Record PageData : Type := mkPageData {
  pd_pageNumber : option Z;
  pd_text : option string;
  pd_hasTable : option bool;
  pd_tableCount : option Z
}.

(** An entry of the page map. *)
Record PageInfo : Type := mkPageInfo {
  start_pos : Z;
  end_pos : Z;
  page_number : Z
}.

(** The [metadata] argument of [chunk_text]; absent keys are [None]. *)
Record DocMetadata : Type := mkDocMetadata {
  md_filename : option string;
  md_uploadedBy : option string;
  md_uploadedAt : option Z;
  md_pageCount : option Z
}.

(** The [metadata] entry of a chunk. *)
Record ChunkMetadata : Type := mkChunkMetadata {
  filename : string;
  uploadedBy : string;
  uploadedAt : Z;
  pageCount : Z
}.

Record Chunk : Type := mkChunk {
  chunkId : string;
  documentId : string;
  text : string;
  chunkIndex : Z;
  pageNumber : Z;
  tokenCount : Z;
  startToken : Z;
  endToken : Z;
  metadata : ChunkMetadata
}.

(** The tokenizer: [tiktoken.get_encoding] may raise, and so may [encode]
    (on text it refuses); [decode] of tokens it produced returns. *)
Record Encoding : Type := mkEncoding {
  encode : string -> outcome (list Z);
  decode : list Z -> string
}.

Record Tiktoken : Type := mkTiktoken {
  get_encoding : string -> outcome Encoding
}.

(** ** build_page_map *)

Fixpoint build_page_map_loop (pages_data : list PageData) (current_pos : Z)
    (page_map : list PageInfo) : list PageInfo :=
  match pages_data with
  | [] => page_map
  | page :: rest =>
      let page_text := get (pd_text page) "" in
      let page_number := get (pd_pageNumber page) 1 in
      let current_pos := if current_pos >? 0 then current_pos + 2 else current_pos in
      let start_pos := current_pos in
      let end_pos := current_pos + len_str page_text in
      build_page_map_loop rest end_pos
        (page_map ++ [mkPageInfo start_pos end_pos page_number])
  end.

Definition build_page_map (pages_data : list PageData) : list PageInfo :=
  build_page_map_loop pages_data 0 [].

(** ** get_page_number_for_position *)

(** The test of the [for] loop: [start_pos <= char_pos < end_pos]. *)
Definition contains (page_info : PageInfo) (char_pos : Z) : bool :=
  (start_pos page_info <=? char_pos) && (char_pos <? end_pos page_info).

(** The [for] loop; [None] when it ends without returning. *)
Fixpoint scan_page_map (char_pos : Z) (page_map : list PageInfo) : option Z :=
  match page_map with
  | [] => None
  | page_info :: rest =>
      if contains page_info char_pos then Some (page_number page_info)
      else scan_page_map char_pos rest
  end.

Definition get_page_number_for_position (char_pos : Z)
    (page_map : list PageInfo) : Z :=
  match scan_page_map char_pos page_map with
  | Some n => n
  | None =>
      match last_item page_map with
      | Some page_info => page_number page_info
      | None => 1
      end
  end.

(** ** chunk_text *)

Section ChunkText.

Variable encoding : Encoding.
Variable page_map : list PageInfo.
Variable tokens : list Z.
Variable document_id : string.
Variable metadata : DocMetadata.
Variables chunk_size overlap : Z.

Let total_tokens : Z := len tokens.

(** The chunk dictionary built in one iteration. *)
Definition make_chunk (start_pos chunk_index : Z) : Chunk :=
  let end_pos := Z.min (start_pos + chunk_size) total_tokens in
  let chunk_tokens := slice tokens start_pos end_pos in
  let chunk_text := decode encoding chunk_tokens in
  let char_pos := len_str (decode encoding (slice tokens 0 start_pos)) in
  let page_number := get_page_number_for_position char_pos page_map in
  let chunk_id := (document_id ++ "#chunk#" ++ str chunk_index)%string in
  mkChunk
    chunk_id                       (* 'chunkId' *)
    document_id                    (* 'documentId' *)
    chunk_text                     (* 'text' *)
    chunk_index                    (* 'chunkIndex' *)
    page_number                    (* 'pageNumber' *)
    (len chunk_tokens)             (* 'tokenCount' *)
    start_pos                      (* 'startToken' *)
    end_pos                        (* 'endToken' *)
    (mkChunkMetadata               (* 'metadata' *)
       (get (md_filename metadata) "unknown.pdf")
       (get (md_uploadedBy metadata) "system")
       (get (md_uploadedAt metadata) 0)
       (get (md_pageCount metadata) 0)).

(** The chunk of the [j]-th iteration after the one at [start_pos],
    [chunk_index]. *)
Definition nth_window (start_pos chunk_index : Z) (j : nat) : Chunk :=
  make_chunk (start_pos + Z.of_nat j * (chunk_size - overlap))
    (chunk_index + Z.of_nat j).

(** The [while] loop; one unit of fuel per iteration. *)
Fixpoint chunk_loop (fuel : nat) (start_pos chunk_index : Z)
    (chunks : list Chunk) : outcome (list Chunk) :=
  if start_pos <? total_tokens then
    match fuel with
    | O => OutOfFuel
    | S fuel' =>
        let end_pos := Z.min (start_pos + chunk_size) total_tokens in
        let chunks := chunks ++ [make_chunk start_pos chunk_index] in
        let chunk_index := chunk_index + 1 in
        if end_pos >=? total_tokens then Returned chunks
        else chunk_loop fuel' (start_pos + chunk_size - overlap) chunk_index chunks
    end
  else Returned chunks.

End ChunkText.

Definition chunk_text (fuel : nat) (tiktoken : Tiktoken) (text : string)
    (pages_data : list PageData) (document_id : string)
    (metadata : DocMetadata) (chunk_size overlap : Z) : outcome (list Chunk) :=
  encoding <- get_encoding tiktoken "cl100k_base" ;;
  let page_map := build_page_map pages_data in
  tokens <- encode encoding text ;;
  chunk_loop encoding page_map tokens document_id metadata chunk_size overlap
    fuel 0 0 [].

(** The call of [extract_text]: [chunk_size=512, overlap=50]. *)
Definition default_chunk_size : Z := 512.
Definition default_overlap : Z := 50.

(** The separator of [extract_text]: [full_text = '\n\n'.join(...)]. *)
Definition newline : ascii := ascii_of_nat 10.
Definition page_separator : string := String newline (String newline EmptyString).

(** ** A tokenizer to run the code on: one token per character. *)

Module CharTokenizer.

Fixpoint codes (s : string) : list Z :=
  match s with
  | EmptyString => []
  | String c r => Z.of_nat (nat_of_ascii c) :: codes r
  end.

Fixpoint chars (l : list Z) : string :=
  match l with
  | [] => EmptyString
  | n :: r => String (ascii_of_nat (Z.to_nat n)) (chars r)
  end.

Definition encoding : Encoding :=
  {| encode := fun s => Returned (codes s); decode := chars |}.

Definition tiktoken : Tiktoken :=
  {| get_encoding := fun _ => Returned encoding |}.

End CharTokenizer.

Definition page (n : Z) (s : string) : PageData :=
  mkPageData (Some n) (Some s) None None.

Definition no_metadata : DocMetadata := mkDocMetadata None None None None.

(** The texts of the pages joined as [extract_text] joins them. *)
Definition full_text (pages_data : list PageData) : string :=
  join page_separator (map (fun p => get (pd_text p) "") pages_data).

(** Two pages of four characters: ten characters once joined. *)
Definition sample_pages : list PageData := [page 1 "abcd"; page 2 "efgh"].
Definition sample_text : string := full_text sample_pages.

(** One page of fifty-two characters. *)
Definition long_pages : list PageData :=
  [page 1 "abcdefghijklmnopqrstuvwxyzABCDEFGHIJKLMNOPQRSTUVWXYZ"].
Definition long_text : string := full_text long_pages.

(** A document without text, and one of three characters. *)
Definition empty_pages : list PageData := [page 1 ""].
Definition short_pages : list PageData := [page 1 "abc"].

(** The closed form of the number of windows for a valid configuration. *)
Definition window_count (total_tokens chunk_size overlap : Z) : nat :=
  if total_tokens <=? 0 then O
  else if total_tokens <=? chunk_size then 1%nat
  else
    let step := chunk_size - overlap in
    S (Z.to_nat ((total_tokens - chunk_size + step - 1) / step)).

(** ** Strings of Python, for the code around the chunker *)

Module PyStr.

(** [c.isspace()] for a character below 256: the characters that
    [str.strip()] removes. *)
Definition isspace (c : ascii) : bool :=
  let n := nat_of_ascii c in
  (((9 <=? n) && (n <=? 13)) || ((28 <=? n) && (n <=? 32))
   || (n =? 133) || (n =? 160))%nat.

(** [s.lstrip()], [s.rstrip()] and [s.strip()]. *)
Fixpoint lstrip (s : string) : string :=
  match s with
  | EmptyString => EmptyString
  | String c r => if isspace c then lstrip r else s
  end.

Fixpoint rstrip (s : string) : string :=
  match s with
  | EmptyString => EmptyString
  | String c r =>
      match rstrip r with
      | EmptyString => if isspace c then EmptyString else String c EmptyString
      | r' => String c r'
      end
  end.

Definition strip (s : string) : string := rstrip (lstrip s).

(** The truth value of a string: [if s]. *)
Definition truthy (s : string) : bool :=
  match s with
  | EmptyString => false
  | String _ _ => true
  end.

(** [s or ''] for an [s] that may be [None]. *)
Definition or_empty (s : option string) : string :=
  match s with
  | Some s => if truthy s then s else ""
  | None => ""
  end.

(** [s.split(sep)] for a separator of one character. *)
Fixpoint split (sep : ascii) (s : string) : list string :=
  match s with
  | EmptyString => [EmptyString]
  | String c r =>
      if Ascii.eqb c sep then EmptyString :: split sep r
      else
        match split sep r with
        | [] => [String c EmptyString]
        | part :: parts => String c part :: parts
        end
  end.

(** [s.startswith(prefix)]. *)
Definition startswith (s prefix : string) : bool := String.prefix prefix s.

End PyStr.

Import PyStr.

(** What a call into a library does: return or raise. *)
Inductive result (A : Type) : Type :=
| Ok (a : A)
| Err (e : exception).

Arguments Ok {A} a.
Arguments Err {A} e.

(** [str(error)]. *)
Definition str_exception (e : exception) : string :=
  match e with Exception _ msg => msg end.

(** ** format_tables *)

Definition Row : Type := list (option string).
Definition Table : Type := list Row.

(** [str(cell).strip() if cell else '']. *)
Definition format_cell (cell : option string) : string :=
  match cell with
  | Some s => if truthy s then strip s else ""
  | None => ""
  end.

(** The inner [for row in table] loop. *)
Fixpoint format_rows (table : Table) (table_lines : list string) : list string :=
  match table with
  | [] => table_lines
  | row :: rest =>
      let cells := map format_cell row in
      let row_text := join " | " cells in
      if truthy (strip row_text)
      then format_rows rest (table_lines ++ [row_text])
      else format_rows rest table_lines
  end.

(** The string appended to [formatted_tables] for a table that is not
    empty. *)
Definition format_table (table_idx : Z) (table : Table) : string :=
  let table_lines := ["[Table " ++ str table_idx ++ "]"]%string in
  join (String newline EmptyString) (format_rows table table_lines).

(** The outer [for table_idx, table in enumerate(tables, start=1)] loop. *)
Fixpoint format_tables_loop (tables : list Table) (table_idx : Z)
    (formatted_tables : list string) : list string :=
  match tables with
  | [] => formatted_tables
  | table :: rest =>
      match table with
      | [] => format_tables_loop rest (table_idx + 1) formatted_tables
      | _ :: _ =>
          format_tables_loop rest (table_idx + 1)
            (formatted_tables ++ [format_table table_idx table])
      end
  end.

Definition format_tables (tables : list Table) : string :=
  join page_separator (format_tables_loop tables 1 []).

(** ** extract_text_from_pdf *)

(** A page of an opened PDF: what [extract_text(layout=True)] and
    [extract_tables()] do on it. *)
Record PdfPage : Type := mkPdfPage {
  page_extract_text : result (option string);
  page_extract_tables : result (list Table)
}.

(** [pdfplumber.open(BytesIO(pdf_bytes))]: the pages, or an exception. *)
Record Pdfplumber : Type := mkPdfplumber {
  pdf_open : string -> result (list PdfPage)
}.

(** An entry of the list that [extract_text_from_pdf] returns: the keys of
    [PageData] and, for a page that failed, the key ['error']. *)
Record ExtractedPage : Type := mkExtractedPage {
  ep_page : PageData;
  ep_error : option string
}.

(** The body of the [for] loop: the [try] block and its [except]. *)
Definition extract_page (page_num : Z) (page : PdfPage) : ExtractedPage :=
  let failed error :=
    mkExtractedPage (mkPageData (Some page_num) (Some "") None None)
      (Some (str_exception error)) in
  match page_extract_text page with
  | Err error => failed error
  | Ok extracted =>
      let text := or_empty extracted in
      match page_extract_tables page with
      | Err error => failed error
      | Ok tables =>
          let text :=
            match tables with
            | [] => text
            | _ :: _ =>
                let table_text := format_tables tables in
                if truthy table_text
                then (text ++ page_separator ++ table_text)%string
                else text
            end in
          mkExtractedPage
            (mkPageData (Some page_num) (Some (strip text))
               (Some (len tables >? 0)) (Some (len tables)))
            None
      end
  end.

Fixpoint extract_pages_loop (pages : list PdfPage) (page_num : Z)
    (pages_data : list ExtractedPage) : list ExtractedPage :=
  match pages with
  | [] => pages_data
  | page :: rest =>
      extract_pages_loop rest (page_num + 1)
        (pages_data ++ [extract_page page_num page])
  end.

Definition extract_text_from_pdf (pdfplumber : Pdfplumber)
    (pdf_bytes : string) : result (list ExtractedPage) :=
  match pdf_open pdfplumber pdf_bytes with
  | Err error => Err error
  | Ok pages => Ok (extract_pages_loop pages 1 [])
  end.

(** ** The object key in extract_text and handler *)

(** [key_parts[1] if len(key_parts) > 1 else 'unknown']. *)
Definition key_document_id (key : string) : string :=
  let key_parts := split "/" key in
  if len key_parts >? 1 then nth 1 key_parts "" else "unknown".

(** [key_parts[-1] if key_parts else 'unknown.pdf']. *)
Definition key_filename (key : string) : string :=
  let key_parts := split "/" key in
  match key_parts with
  | [] => "unknown.pdf"
  | _ :: _ =>
      match last_item key_parts with
      | Some part => part
      | None => "unknown.pdf"
      end
  end.

(** ** update_document_status: the request it builds *)

(** A value of [ExpressionAttributeValues]. *)
Inductive AttrValue : Type :=
| AttrStr (s : string)
| AttrNum (n : Z).

(** The arguments of [update_item]. *)
Record UpdateItem : Type := mkUpdateItem {
  item_pk : string;
  item_sk : string;
  update_expression : string;
  expression_values : list (string * AttrValue)
}.

(** The request built in the [try] block; [now] stands for
    [int(datetime.now().timestamp() * 1000)], and an [error_message] that
    is [None] or empty is false. *)
Definition update_item_request (document_id status : string)
    (chunk_count page_count : Z) (error_message : option string) (now : Z)
    : UpdateItem :=
  let update_expression :=
    "SET processingStatus = :status, updatedAt = :updated_at" in
  let expression_values :=
    [(":status", AttrStr status); (":updated_at", AttrNum now)] in
  let '(update_expression, expression_values) :=
    if String.eqb status "completed" then
      ((update_expression
        ++ ", chunkCount = :chunk_count, pageCount = :page_count")%string,
       expression_values
       ++ [(":chunk_count", AttrNum chunk_count);
           (":page_count", AttrNum page_count)])
    else if String.eqb status "failed" && truthy (or_empty error_message) then
      ((update_expression ++ ", errorMessage = :error_message")%string,
       expression_values
       ++ [(":error_message", AttrStr (or_empty error_message))])
    else (update_expression, expression_values) in
  mkUpdateItem ("DOC#" ++ document_id)%string "METADATA"
    update_expression expression_values.

(** The placeholders [:name] of an update expression, in order: a colon
    and the letters, digits and underscores after it. *)
Definition is_name_char (c : ascii) : bool :=
  let n := nat_of_ascii c in
  (((48 <=? n) && (n <=? 57)) || ((65 <=? n) && (n <=? 90))
   || ((97 <=? n) && (n <=? 122)) || (n =? 95))%nat.

Fixpoint take_name (s : string) : string :=
  match s with
  | EmptyString => EmptyString
  | String c r => if is_name_char c then String c (take_name r) else EmptyString
  end.

Fixpoint placeholders (s : string) : list string :=
  match s with
  | EmptyString => []
  | String c r =>
      if Ascii.eqb c ":" then String c (take_name r) :: placeholders r
      else placeholders r
  end.

(** ** configure_role_mapping *)

(** The ["all_access"] entry of the response; an absent key is [None]. *)
Record RoleMapping : Type := mkRoleMapping {
  rm_backend_roles : option (list string);
  rm_hosts : option (list string);
  rm_users : option (list string)
}.

Definition empty_mapping : RoleMapping := mkRoleMapping None None None.

(** The payload of the PUT. *)
Record RolePayload : Type := mkRolePayload {
  backend_roles : list string;
  hosts : list string;
  users : list string
}.

(** [requests.get] followed by [raise_for_status] and [json()], and
    [requests.put] followed by [raise_for_status]; [Err] is a
    [RequestException].  The response of the GET has the key
    ["all_access"] or not. *)
Record Requests : Type := mkRequests {
  requests_get : string -> string -> string -> result (option RoleMapping);
  requests_put : string -> string -> string -> RolePayload -> result unit
}.

(** [x in l] for strings. *)
Definition in_list (x : string) (l : list string) : bool :=
  existsb (String.eqb x) l.

(** The payload built from the current mapping. *)
Definition role_mapping_payload (current_mapping : RoleMapping)
    (lambda_role_arn : string) : RolePayload :=
  let backend_roles := get (rm_backend_roles current_mapping) [] in
  let backend_roles :=
    if negb (in_list lambda_role_arn backend_roles)
    then backend_roles ++ [lambda_role_arn]
    else backend_roles in
  mkRolePayload backend_roles
    (get (rm_hosts current_mapping) [])
    (get (rm_users current_mapping) []).

Definition role_mapping_url (endpoint : string) : string :=
  ("https://" ++ endpoint
   ++ "/_plugins/_security/api/rolesmapping/all_access")%string.

(** The mapping the script works from: that of the response, or the empty
    one when the GET failed. *)
Definition current_role_mapping (requests : Requests)
    (endpoint master_user master_password : string) : RoleMapping :=
  match requests_get requests (role_mapping_url endpoint)
          master_user master_password with
  | Ok response => get response empty_mapping
  | Err _ => empty_mapping
  end.

Definition configure_role_mapping (requests : Requests)
    (endpoint master_user master_password lambda_role_arn : string) : bool :=
  let url := role_mapping_url endpoint in
  let current_mapping :=
    current_role_mapping requests endpoint master_user master_password in
  let payload := role_mapping_payload current_mapping lambda_role_arn in
  match requests_put requests url master_user master_password payload with
  | Ok _ => true
  | Err _ => false
  end.

(** ** handler *)

(** A record of the S3 event: the bucket name and the object key, [None]
    when the lookup in the record raises. *)
Record S3Record : Type := mkS3Record {
  rec_bucket : option string;
  rec_key : option string
}.

(** The [context] of a call, as [handler] reads it: the request id, [None]
    when the object has no attribute [aws_request_id]. *)
Record LambdaContext : Type := mkLambdaContext {
  aws_request_id : option string
}.

(** What [extract_text] returns, as [handler] reads it. *)
Record ExtractResult : Type := mkExtractResult {
  er_chunkCount : option Z;
  er_pageCount : option Z
}.

(** The calls [handler] makes, in order. *)
Inductive Call : Type :=
| UpdateStatus (document_id status bucket key : string)
    (chunk_count page_count : Z)
| ExtractText (bucket key : string)
| HandleFailure (bucket key document_id : string) (error : exception).

(** How a record ends. *)
Inductive RecordEnd : Type :=
| Skipped
| Processed
| Failed.

Section Handler.

(** [urllib.parse.unquote_plus], and what [extract_text] does given the
    calls made so far. *)
Variable unquote_plus : string -> string.
Variable extract_text : list Call -> string -> string -> result ExtractResult.

(** The [except] block: count the failure and, when bucket, key and
    document id are all set and not empty, handle it. *)
Definition on_failure (calls : list Call)
    (bucket key document_id : option string) (error : exception)
    : RecordEnd * list Call :=
  if truthy (or_empty bucket) && truthy (or_empty key)
     && truthy (or_empty document_id)
  then (Failed,
        calls ++ [HandleFailure (or_empty bucket) (or_empty key)
                    (or_empty document_id) error])
  else (Failed, calls).

(** The body of the [for] loop for one record. *)
Definition handle_record (calls : list Call) (record : S3Record)
    : RecordEnd * list Call :=
  match rec_bucket record with
  | None => on_failure calls None None None (Exception "KeyError" "s3")
  | Some bucket =>
      match rec_key record with
      | None =>
          on_failure calls (Some bucket) None None (Exception "KeyError" "s3")
      | Some quoted =>
          let key := unquote_plus quoted in
          if negb (startswith key "uploads/") then (Skipped, calls)
          else
            let document_id := key_document_id key in
            let calls :=
              calls ++ [UpdateStatus document_id "processing" bucket key 0 0] in
            let calls := calls ++ [ExtractText bucket key] in
            match extract_text calls bucket key with
            | Err error =>
                on_failure calls (Some bucket) (Some key) (Some document_id)
                  error
            | Ok result =>
                let calls :=
                  calls ++ [UpdateStatus document_id "completed" bucket key
                              (get (er_chunkCount result) 0)
                              (get (er_pageCount result) 0)] in
                match er_pageCount result with
                | None =>
                    on_failure calls (Some bucket) (Some key)
                      (Some document_id) (Exception "KeyError" "'pageCount'")
                | Some _ => (Processed, calls)
                end
            end
      end
  end.

(** The [for] loop with its two counters. *)
Fixpoint handle_records (records : list S3Record)
    (processed_count failed_count : Z) (calls : list Call)
    : Z * Z * list Call :=
  match records with
  | [] => (processed_count, failed_count, calls)
  | record :: rest =>
      match handle_record calls record with
      | (Skipped, calls) =>
          handle_records rest processed_count failed_count calls
      | (Processed, calls) =>
          handle_records rest (processed_count + 1) failed_count calls
      | (Failed, calls) =>
          handle_records rest processed_count (failed_count + 1) calls
      end
  end.

(** [json.dumps({'processed': p, 'failed': f})]. *)
Definition counts_json (processed_count failed_count : Z) : string :=
  let quote := String (ascii_of_nat 34) EmptyString in
  ("{" ++ quote ++ "processed" ++ quote ++ ": " ++ str processed_count
   ++ ", " ++ quote ++ "failed" ++ quote ++ ": " ++ str failed_count
   ++ "}")%string.

(** The bucket and key of the [extract_text] calls among some calls. *)
Fixpoint extract_calls (calls : list Call) : list (string * string) :=
  match calls with
  | [] => []
  | ExtractText bucket key :: rest => (bucket, key) :: extract_calls rest
  | _ :: rest => extract_calls rest
  end.

(** The records that [handler] takes up: both lookups return and the
    unquoted key starts with [uploads/]; with them, bucket and key. *)
Definition upload_of (record : S3Record) : option (string * string) :=
  match rec_bucket record, rec_key record with
  | Some bucket, Some quoted =>
      if startswith (unquote_plus quoted) "uploads/"
      then Some (bucket, unquote_plus quoted) else None
  | _, _ => None
  end.

(** The records that [handler] passes over: both lookups return and the
    unquoted key does not start with [uploads/]. *)
Definition passed_over (record : S3Record) : bool :=
  match rec_bucket record, rec_key record with
  | Some _, Some quoted => negb (startswith (unquote_plus quoted) "uploads/")
  | _, _ => false
  end.

(** The failure handling that [handler] may ask for. *)
Definition sound_call (call : Call) : Prop :=
  match call with
  | HandleFailure bucket key document_id _ =>
      bucket <> "" /\ startswith key "uploads/" = true /\
      document_id = key_document_id key /\ document_id <> ""
  | _ => True
  end.

(** What [handler] does: it returns the response, the status code and the
    body, or raises; with it, the calls made.  [records] is
    [event.get('Records', [])].  The first statement reads
    [context.aws_request_id], before the loop and outside every [try]: a
    context without the attribute makes the handler raise there. *)
Definition handler (records : option (list S3Record))
    (context : LambdaContext) : result (Z * string) * list Call :=
  match aws_request_id context with
  | None => (Err (Exception "AttributeError" "aws_request_id"), [])
  | Some _ =>
      let '(processed_count, failed_count, calls) :=
        handle_records (get records []) 0 0 [] in
      (Ok (200, counts_json processed_count failed_count), calls)
  end.

End Handler.

(** ** Inputs to run the code around the chunker on *)

(** A tokenizer whose encoding does not load. *)
Module FailingTokenizer.

Definition error : exception := Exception "ValueError" "Unknown encoding".

Definition tiktoken : Tiktoken :=
  {| get_encoding := fun _ => Raised error |}.

End FailingTokenizer.

(** A PDF of three pages: text, a page that fails, and a page with an
    empty table and a table of one row. *)
Definition sample_pdf_pages : list PdfPage :=
  [mkPdfPage (Ok (Some " first page ")) (Ok []);
   mkPdfPage (Err (Exception "ValueError" "bad page")) (Ok []);
   mkPdfPage (Ok None) (Ok [[]; [[Some "a"; None]]])].

Definition sample_pdfplumber : Pdfplumber :=
  mkPdfplumber (fun _ => Ok sample_pdf_pages).

(** A server whose GET fails and whose PUT succeeds. *)
Definition sample_requests : Requests :=
  mkRequests (fun _ _ _ => Err (Exception "ConnectionError" "unreachable"))
    (fun _ _ _ _ => Ok tt).

(** An [extract_text] that succeeds on one key only, and an event of five
    records. *)
Definition sample_extract (calls : list Call) (bucket key : string)
    : result ExtractResult :=
  if String.eqb key "uploads/d1/a.pdf"
  then Ok (mkExtractResult (Some 3) (Some 2))
  else Err (Exception "PDFSyntaxError" "no pages").

Definition sample_context : LambdaContext :=
  mkLambdaContext (Some "request-1").

Definition sample_records : list S3Record :=
  [mkS3Record (Some "bucket") (Some "uploads/d1/a.pdf");
   mkS3Record (Some "bucket") (Some "other/x.pdf");
   mkS3Record None (Some "uploads/d3/c.pdf");
   mkS3Record (Some "bucket") (Some "uploads//z.pdf");
   mkS3Record (Some "bucket") (Some "uploads/d2/b.pdf")].

(** Evaluates a lookup in a page map whose spans are written out. *)
Ltac lookup :=
  unfold get_page_number_for_position, build_page_map;
  cbn [build_page_map_loop app];
  repeat match goal with
    | |- context [?a >? ?b] => destruct (Z.gtb_spec a b); try lia
    end;
  cbn [scan_page_map last_item]; unfold contains;
  cbn [start_pos end_pos page_number];
  repeat match goal with
    | |- context [?a <=? ?b] => destruct (Z.leb_spec a b); try lia
    | |- context [?a <? ?b] => destruct (Z.ltb_spec a b); try lia
    end;
  cbn [andb]; try reflexivity.

(** ** Lists, slices and strings *)

Lemma len_nonneg {A : Type} (l : list A) : 0 <= len l.
Proof. unfold len. lia. Qed.

Lemma len_app {A : Type} (l1 l2 : list A) : len (l1 ++ l2) = len l1 + len l2.
Proof. unfold len. rewrite length_app. lia. Qed.

Lemma slice_len {A : Type} (l : list A) (a b : Z) :
  0 <= a <= b -> b <= len l -> len (slice l a b) = b - a.
Proof.
  intros Hab Hb. unfold slice, clamp.
  destruct (Z.ltb_spec a 0); [lia|].
  destruct (Z.ltb_spec b 0); [lia|].
  unfold len in *. rewrite length_firstn, length_skipn. lia.
Qed.

Lemma last_item_app {A : Type} (l : list A) (x : A) :
  last_item (l ++ [x]) = Some x.
Proof.
  induction l as [|y l IH]; [reflexivity|].
  simpl. rewrite IH. destruct (l ++ [x])%list eqn:E; [|reflexivity].
  destruct l; discriminate.
Qed.

Lemma last_item_nth {A : Type} (l : list A) :
  last_item l = nth_error l (Nat.pred (List.length l)).
Proof.
  induction l as [|x [|y r] IH]; try reflexivity.
  change (last_item (x :: y :: r)) with (last_item (y :: r)).
  rewrite IH. reflexivity.
Qed.

Lemma last_item_cons {A : Type} (x : A) (l : list A) :
  l <> [] -> last_item (x :: l) = last_item l.
Proof. destruct l; [congruence|reflexivity]. Qed.

Lemma length_string_app (s1 s2 : string) :
  String.length (s1 ++ s2)%string = (String.length s1 + String.length s2)%nat.
Proof. induction s1 as [|c s1 IH]; simpl; [reflexivity|now rewrite IH]. Qed.

Lemma len_str_app (s1 s2 : string) : len_str (s1 ++ s2)%string = len_str s1 + len_str s2.
Proof. unfold len_str. rewrite length_string_app. lia. Qed.

Lemma len_str_nonneg (s : string) : 0 <= len_str s.
Proof. unfold len_str. lia. Qed.

(** ** The while loop of chunk_text *)

Section LoopFacts.

Variable encoding : Encoding.
Variable page_map : list PageInfo.
Variable tokens : list Z.
Variable document_id : string.
Variable metadata : DocMetadata.
Variables chunk_size overlap : Z.

Local Abbreviation total := (len tokens).
Local Abbreviation step := (chunk_size - overlap).
Local Abbreviation mk := (make_chunk encoding page_map tokens document_id
                        metadata chunk_size).
Local Abbreviation loop := (chunk_loop encoding page_map tokens document_id
                          metadata chunk_size overlap).

Local Abbreviation nth_window :=
  (nth_window encoding page_map tokens document_id metadata chunk_size
     overlap).

Lemma nth_window_0 (s i : Z) : nth_window s i 0 = mk s i.
Proof. unfold nth_window. simpl. now rewrite !Z.add_0_r. Qed.

Lemma nth_window_S (s i : Z) (j : nat) :
  nth_window s i (S j) = nth_window (s + chunk_size - overlap) (i + 1) j.
Proof. unfold nth_window. f_equal; lia. Qed.

Lemma loop_unfold (fuel : nat) (s i : Z) (acc : list Chunk) :
  loop (S fuel) s i acc =
    if s <? total then
      if Z.min (s + chunk_size) total >=? total
      then Returned (acc ++ [mk s i])
      else loop fuel (s + chunk_size - overlap) (i + 1) (acc ++ [mk s i])
    else Returned acc.
Proof. reflexivity. Qed.

Lemma loop_exit (fuel : nat) (s i : Z) (acc : list Chunk) :
  total <= s -> loop fuel s i acc = Returned acc.
Proof.
  intros H. destruct fuel; simpl; destruct (Z.ltb_spec s total); auto; lia.
Qed.

(** With [m] more windows to come after the current one, the loop emits
    [m + 1] windows and returns. *)
Lemma loop_run (m : nat) :
  0 <= overlap < chunk_size ->
  forall (fuel : nat) (s i : Z) (acc : list Chunk),
    s < total ->
    (forall j, (j < m)%nat -> s + Z.of_nat j * step + chunk_size < total) ->
    total <= s + Z.of_nat m * step + chunk_size ->
    (m < fuel)%nat ->
    loop fuel s i acc = Returned (acc ++ map (nth_window s i) (seq 0 (S m))).
Proof.
  intros Hcfg. induction m as [|m IH]; intros fuel s i acc Hs Hlt Hge Hfuel;
    (destruct fuel as [|fuel]; [lia|]); rewrite loop_unfold;
    destruct (Z.ltb_spec s total); try lia.
  - destruct (Z.geb_spec (Z.min (s + chunk_size) total) total); [|lia].
    simpl. now rewrite nth_window_0.
  - pose proof (Hlt O ltac:(lia)) as H0. simpl in H0.
    destruct (Z.geb_spec (Z.min (s + chunk_size) total) total); [lia|].
    rewrite IH; try lia.
    + rewrite <- app_assoc. do 2 apply f_equal.
      replace (seq 0 (S (S m))) with (O :: map S (seq 0 (S m)))
        by (now rewrite seq_shift).
      rewrite map_cons, map_map, nth_window_0. cbn [app].
      apply f_equal, map_ext. intros j. now rewrite nth_window_S.
    + intros j Hj. pose proof (Hlt (S j) ltac:(lia)). lia.
Qed.

(** The loop returns whenever the step is positive. *)
Lemma loop_terminates (n : nat) :
  overlap < chunk_size ->
  forall (s i : Z) (acc : list Chunk),
    (Z.to_nat (total - s) <= n)%nat ->
    exists chunks, forall fuel, (n <= fuel)%nat ->
      loop fuel s i acc = Returned chunks.
Proof.
  intros Hstep. induction n as [|n IH]; intros s i acc Hn.
  - exists acc. intros fuel _. apply loop_exit. lia.
  - destruct (Z.ltb_spec s total) as [Hs|Hs].
    + destruct (Z.geb_spec (Z.min (s + chunk_size) total) total) as [He|He].
      * exists (acc ++ [mk s i]). intros [|fuel] Hf; [lia|].
        rewrite loop_unfold.
        destruct (Z.ltb_spec s total); [|lia].
        destruct (Z.geb_spec (Z.min (s + chunk_size) total) total); [easy|lia].
      * destruct (IH (s + chunk_size - overlap) (i + 1) (acc ++ [mk s i]) ltac:(lia))
          as [chunks Hc].
        exists chunks. intros [|fuel] Hf; [lia|].
        rewrite loop_unfold.
        destruct (Z.ltb_spec s total); [|lia].
        destruct (Z.geb_spec (Z.min (s + chunk_size) total) total); [lia|].
        apply Hc. lia.
    + exists acc. intros fuel _. now apply loop_exit.
Qed.

(** With a step that is not positive and a first window short of the end,
    the loop never returns. *)
Lemma loop_diverges (fuel : nat) :
  chunk_size <= overlap -> chunk_size < total -> 0 < total ->
  forall (s i : Z) (acc : list Chunk),
    s <= 0 -> loop fuel s i acc = OutOfFuel.
Proof.
  intros Hstep Hcs Htot. induction fuel as [|fuel IH]; intros s i acc Hs.
  - simpl. destruct (Z.ltb_spec s total); [reflexivity|lia].
  - rewrite loop_unfold.
    destruct (Z.ltb_spec s total); [|lia].
    destruct (Z.geb_spec (Z.min (s + chunk_size) total) total); [lia|].
    apply IH. lia.
Qed.

(** Whatever the configuration, what the loop returns extends the
    accumulator by chunks numbered from [i] on. *)
Lemma loop_indices (fuel : nat) :
  forall (s i : Z) (acc chunks : list Chunk),
    loop fuel s i acc = Returned chunks ->
    exists new, chunks = acc ++ new /\
      forall j c, nth_error new j = Some c ->
        chunkIndex c = i + Z.of_nat j /\
        chunkId c = (document_id ++ "#chunk#" ++ str (i + Z.of_nat j))%string /\
        documentId c = document_id.
Proof.
  induction fuel as [|fuel IH]; intros s i acc chunks H.
  - simpl in H. destruct (s <? total); [discriminate|].
    injection H as <-. exists []. split; [now rewrite app_nil_r|].
    intros [|j] c Hc; discriminate.
  - rewrite loop_unfold in H.
    destruct (s <? total).
    + destruct (Z.min (s + chunk_size) total >=? total).
      * injection H as <-. exists [mk s i]. split; [reflexivity|].
        intros [|[|j]] c Hc; try discriminate.
        injection Hc as <-. simpl. now rewrite Z.add_0_r.
      * apply IH in H. destruct H as (new & -> & Hnew).
        exists (mk s i :: new). split; [now rewrite <- app_assoc|].
        intros [|j] c Hc.
        -- injection Hc as <-. simpl. now rewrite Z.add_0_r.
        -- simpl in Hc. apply Hnew in Hc.
           replace (i + Z.of_nat (S j)) with (i + 1 + Z.of_nat j) by lia.
           exact Hc.
    + injection H as <-. exists []. split; [now rewrite app_nil_r|].
      intros [|j] c Hc; discriminate.
Qed.

End LoopFacts.

(** ** The windows of a valid configuration *)

Lemma nth_error_map_seq {A : Type} (f : nat -> A) (n k : nat) (c : A) :
  nth_error (map f (seq 0 n)) k = Some c -> (k < n)%nat /\ c = f k.
Proof.
  rewrite nth_error_map, nth_error_seq.
  destruct (Nat.ltb_spec k n); simpl; [|discriminate].
  intros H'. injection H' as <-. now split.
Qed.

Lemma window_count_spec (total cs ov : Z) :
  0 <= ov < cs -> 0 < total ->
  (1 <= window_count total cs ov)%nat /\
  (forall j, (S j < window_count total cs ov)%nat ->
     Z.of_nat j * (cs - ov) + cs < total) /\
  total <= Z.of_nat (Nat.pred (window_count total cs ov)) * (cs - ov) + cs /\
  (window_count total cs ov <= Z.to_nat total)%nat.
Proof.
  intros Hcfg Htot. unfold window_count.
  destruct (Z.leb_spec total 0); [lia|].
  destruct (Z.leb_spec total cs).
  - repeat split; try lia.
  - set (step := cs - ov).
    set (q := (total - cs + step - 1) / step).
    assert (Hstep : 0 < step) by (unfold step; lia).
    pose proof (Z.div_mod (total - cs + step - 1) step ltac:(lia)) as Hdm.
    pose proof (Z.mod_pos_bound (total - cs + step - 1) step Hstep) as Hmod.
    fold q in Hdm.
    assert (Hq : 0 <= q) by (apply Z.div_pos; lia).
    cbn [Nat.pred]. rewrite Z2Nat.id by exact Hq.
    repeat split; try lia; nia.
Qed.

Section Windows.

Variable encoding : Encoding.
Variable page_map : list PageInfo.
Variable tokens : list Z.
Variable document_id : string.
Variable metadata : DocMetadata.
Variables chunk_size overlap : Z.

Hypothesis valid : 0 <= overlap < chunk_size.

Local Abbreviation total := (len tokens).
Local Abbreviation step := (chunk_size - overlap).
Local Abbreviation count := (window_count (len tokens) chunk_size overlap).
Local Abbreviation window :=
  (nth_window encoding page_map tokens document_id metadata chunk_size
     overlap 0 0).
Local Abbreviation loop := (chunk_loop encoding page_map tokens document_id
                          metadata chunk_size overlap).

(** The loop from the start returns the windows [0 .. count - 1]. *)
Lemma loop_closed_form (fuel : nat) :
  (count <= fuel)%nat ->
  loop fuel 0 0 [] = Returned (map window (seq 0 count)).
Proof.
  intros Hfuel.
  destruct (Z.leb_spec total 0) as [Hz|Hpos].
  - rewrite loop_exit by lia. unfold window_count.
    destruct (Z.leb_spec total 0); [reflexivity|lia].
  - destruct (window_count_spec total chunk_size overlap valid Hpos)
      as (H1 & Hlt & Hge & _).
    rewrite (loop_run _ _ _ _ _ _ _ (Nat.pred count) valid); try lia.
    + now replace (S (Nat.pred count)) with count by lia.
    + intros j Hj. rewrite Z.add_0_l. apply Hlt. lia.
Qed.

Lemma window_start (k : nat) : startToken (window k) = Z.of_nat k * step.
Proof. reflexivity. Qed.

Lemma window_end (k : nat) :
  endToken (window k) = Z.min (Z.of_nat k * step + chunk_size) total.
Proof. reflexivity. Qed.

Lemma window_index (k : nat) : chunkIndex (window k) = Z.of_nat k.
Proof. reflexivity. Qed.

(** A window that is not the last one is full and ends before the end. *)
Lemma window_end_inner (k : nat) :
  (S k < count)%nat -> endToken (window k) = Z.of_nat k * step + chunk_size.
Proof.
  intros Hk. rewrite window_end.
  destruct (Z.leb_spec total 0) as [Hz|Hpos].
  - unfold window_count in Hk. destruct (Z.leb_spec total 0); lia.
  - destruct (window_count_spec total chunk_size overlap valid Hpos)
      as (_ & Hlt & _). specialize (Hlt k Hk). lia.
Qed.

(** The last window ends at the end. *)
Lemma window_end_last (k : nat) :
  S k = count -> endToken (window k) = total.
Proof.
  intros Hk. rewrite window_end.
  destruct (Z.leb_spec total 0) as [Hz|Hpos].
  - unfold window_count in Hk. destruct (Z.leb_spec total 0); lia.
  - destruct (window_count_spec total chunk_size overlap valid Hpos)
      as (_ & _ & Hge & _).
    rewrite <- Hk in Hge. simpl in Hge. lia.
Qed.

(** Every window starts inside the token sequence. *)
Lemma window_start_lt (k : nat) :
  (k < count)%nat -> 0 <= startToken (window k) < total.
Proof.
  intros Hk. rewrite window_start.
  destruct (Z.leb_spec total 0) as [Hz|Hpos].
  - unfold window_count in Hk. destruct (Z.leb_spec total 0); lia.
  - destruct (window_count_spec total chunk_size overlap valid Hpos)
      as (_ & Hlt & _).
    destruct k as [|k]; [lia|].
    specialize (Hlt k Hk). split; nia.
Qed.

Lemma window_token_count (k : nat) :
  (k < count)%nat ->
  tokenCount (window k) = endToken (window k) - startToken (window k).
Proof.
  intros Hk. pose proof (window_start_lt k Hk) as Hs.
  rewrite window_start in Hs. rewrite window_end, window_start.
  unfold nth_window, make_chunk. cbn [tokenCount].
  rewrite !Z.add_0_l. apply slice_len; lia.
Qed.

End Windows.

(** ** chunk_text once the encoding is loaded and the text encoded *)

Section Loaded.

Variable tiktoken : Tiktoken.
Variable encoding : Encoding.
Variable text : string.
Variable tokens : list Z.
Variable pages_data : list PageData.
Variable document_id : string.
Variable metadata : DocMetadata.

Hypothesis loaded : get_encoding tiktoken "cl100k_base" = Returned encoding.
Hypothesis encoded : encode encoding text = Returned tokens.

Lemma chunk_text_run (fuel : nat) (chunk_size overlap : Z) :
  chunk_text fuel tiktoken text pages_data document_id metadata
    chunk_size overlap =
  chunk_loop encoding (build_page_map pages_data) tokens document_id
    metadata chunk_size overlap fuel 0 0 [].
Proof. unfold chunk_text. rewrite loaded. simpl. now rewrite encoded. Qed.

Lemma window_count_le (chunk_size overlap : Z) :
  0 <= overlap < chunk_size ->
  (window_count (len tokens) chunk_size overlap <= List.length tokens)%nat.
Proof.
  intros Hv. destruct (Z.leb_spec (len tokens) 0) as [Hz|Hpos].
  - unfold window_count. destruct (Z.leb_spec (len tokens) 0); lia.
  - destruct (window_count_spec _ _ _ Hv Hpos) as (_ & _ & _ & H).
    unfold len in H. now rewrite Nat2Z.id in H.
Qed.

Lemma chunk_text_closed_form (fuel : nat) (chunk_size overlap : Z) :
  0 <= overlap < chunk_size ->
  (List.length tokens <= fuel)%nat ->
  chunk_text fuel tiktoken text pages_data document_id metadata
    chunk_size overlap =
  Returned
    (map (nth_window encoding (build_page_map pages_data) tokens
            document_id metadata chunk_size overlap 0 0)
       (seq 0 (window_count (len tokens) chunk_size overlap))).
Proof.
  intros Hv Hfuel. rewrite chunk_text_run.
  apply loop_closed_form; [exact Hv|].
  pose proof (window_count_le chunk_size overlap Hv). lia.
Qed.

End Loaded.

(** ** The claims on the windows *)

(** C1 (overlap law).  For a valid configuration and more tokens than one
    chunk holds, [chunk_text] returns at least two chunks, and in every
    consecutive pair the next chunk starts [chunk_size - overlap] tokens
    after the current one and the current one ends [overlap] tokens after
    the next one starts.  The difference is exactly [overlap] on every pair,
    the final pair included, which the law allows to be smaller there. *)
Theorem chunk_text_overlap_law
    (tiktoken : Tiktoken) (encoding : Encoding) (text : string)
    (tokens : list Z) (pages_data : list PageData) (document_id : string)
    (metadata : DocMetadata) (chunk_size overlap : Z) :
  get_encoding tiktoken "cl100k_base" = Returned encoding ->
  encode encoding text = Returned tokens ->
  0 <= overlap < chunk_size ->
  chunk_size < len tokens ->
  exists chunks,
    (forall fuel, (List.length tokens <= fuel)%nat ->
       chunk_text fuel tiktoken text pages_data document_id metadata
         chunk_size overlap = Returned chunks) /\
    (2 <= List.length chunks)%nat /\
    forall i c c',
      nth_error chunks i = Some c ->
      nth_error chunks (S i) = Some c' ->
      startToken c' = startToken c + chunk_size - overlap /\
      endToken c - startToken c' = overlap.
Proof.
  intros Hload Henc Hv Hbig.
  eexists. split; [|split].
  - intros fuel Hfuel.
    exact (chunk_text_closed_form _ _ _ _ pages_data document_id metadata
             Hload Henc fuel _ _ Hv Hfuel).
  - rewrite length_map, length_seq.
    destruct (window_count_spec (len tokens) chunk_size overlap Hv
                ltac:(lia)) as (H1 & _ & Hge & _).
    destruct (window_count (len tokens) chunk_size overlap) as [|[|n]];
      simpl in *; lia.
  - intros i c c' Hc Hc'.
    apply nth_error_map_seq in Hc as [Hi ->].
    apply nth_error_map_seq in Hc' as [Hi' ->].
    rewrite (window_end_inner _ _ _ _ _ _ _ Hv i Hi'), !window_start.
    repeat split; lia.
Qed.

(** C2 (bounded size).  For a valid configuration every chunk that
    [chunk_text] returns has [tokenCount = endToken - startToken], at most
    [chunk_size], and exactly [chunk_size] unless it is the last chunk. *)
Theorem chunk_text_bounded_size
    (tiktoken : Tiktoken) (encoding : Encoding) (text : string)
    (tokens : list Z) (pages_data : list PageData) (document_id : string)
    (metadata : DocMetadata) (chunk_size overlap : Z) :
  get_encoding tiktoken "cl100k_base" = Returned encoding ->
  encode encoding text = Returned tokens ->
  0 <= overlap < chunk_size ->
  exists chunks,
    (forall fuel, (List.length tokens <= fuel)%nat ->
       chunk_text fuel tiktoken text pages_data document_id metadata
         chunk_size overlap = Returned chunks) /\
    forall i c,
      nth_error chunks i = Some c ->
      tokenCount c = endToken c - startToken c /\
      tokenCount c <= chunk_size /\
      ((S i < List.length chunks)%nat -> tokenCount c = chunk_size).
Proof.
  intros Hload Henc Hv.
  eexists. split.
  - intros fuel Hfuel.
    exact (chunk_text_closed_form _ _ _ _ pages_data document_id metadata
             Hload Henc fuel _ _ Hv Hfuel).
  - intros i c Hc. apply nth_error_map_seq in Hc as [Hi ->].
    rewrite length_map, length_seq.
    rewrite (window_token_count _ _ _ _ _ _ _ Hv i Hi).
    split; [reflexivity|]. split.
    + rewrite window_end, window_start. lia.
    + intros Hin. rewrite (window_end_inner _ _ _ _ _ _ _ Hv i Hin),
        window_start. lia.
Qed.

(** C3 (coverage).  For a valid configuration and at least one token, the
    chunks that [chunk_text] returns cover [0, total_tokens) without a gap:
    the first chunk starts at 0, the last chunk ends at [total_tokens], each
    chunk starts no later than the previous one ends, and so every token
    position lies in the range of some chunk. *)
Theorem chunk_text_coverage
    (tiktoken : Tiktoken) (encoding : Encoding) (text : string)
    (tokens : list Z) (pages_data : list PageData) (document_id : string)
    (metadata : DocMetadata) (chunk_size overlap : Z) :
  get_encoding tiktoken "cl100k_base" = Returned encoding ->
  encode encoding text = Returned tokens ->
  0 <= overlap < chunk_size ->
  0 < len tokens ->
  exists chunks,
    (forall fuel, (List.length tokens <= fuel)%nat ->
       chunk_text fuel tiktoken text pages_data document_id metadata
         chunk_size overlap = Returned chunks) /\
    (exists first, nth_error chunks 0 = Some first /\ startToken first = 0) /\
    (exists final, last_item chunks = Some final /\
                   endToken final = len tokens) /\
    (forall i c c',
       nth_error chunks i = Some c ->
       nth_error chunks (S i) = Some c' ->
       startToken c' <= endToken c) /\
    (forall t, 0 <= t < len tokens ->
       exists c, In c chunks /\ startToken c <= t < endToken c).
Proof.
  intros Hload Henc Hv Hpos.
  destruct (window_count_spec (len tokens) chunk_size overlap Hv Hpos)
    as (H1 & Hlt & Hge & _).
  set (count := window_count (len tokens) chunk_size overlap) in *.
  set (window := nth_window encoding (build_page_map pages_data) tokens
                   document_id metadata chunk_size overlap 0 0).
  exists (map window (seq 0 count)). split; [|split; [|split; [|split]]].
  - intros fuel Hfuel.
    exact (chunk_text_closed_form _ _ _ _ pages_data document_id metadata
             Hload Henc fuel _ _ Hv Hfuel).
  - exists (window O). split; [|reflexivity].
    rewrite nth_error_map, nth_error_seq.
    destruct (Nat.ltb_spec 0 count); [reflexivity|lia].
  - exists (window (Nat.pred count)). split.
    + rewrite last_item_nth, length_map, length_seq, nth_error_map,
        nth_error_seq.
      destruct (Nat.ltb_spec (Nat.pred count) count); [reflexivity|lia].
    + apply (window_end_last _ _ _ _ _ _ _ Hv). fold count. lia.
  - intros i c c' Hc Hc'.
    apply nth_error_map_seq in Hc as [Hi ->].
    apply nth_error_map_seq in Hc' as [Hi' ->].
    unfold window.
    rewrite (window_end_inner _ _ _ _ _ _ _ Hv i Hi'), !window_start. lia.
  - intros t Ht.
    assert (Hstep : 0 < chunk_size - overlap) by lia.
    pose proof (Z.div_mod t (chunk_size - overlap) ltac:(lia)) as Hdm.
    pose proof (Z.mod_pos_bound t (chunk_size - overlap) Hstep) as Hmod.
    assert (Hq : 0 <= t / (chunk_size - overlap)) by (apply Z.div_pos; lia).
    set (q := t / (chunk_size - overlap)) in *.
    destruct (Nat.ltb_spec (Z.to_nat q) count) as [Hin|Hout].
    + exists (window (Z.to_nat q)). split.
      * apply in_map, in_seq. lia.
      * unfold window. rewrite window_start, window_end, Z2Nat.id by lia.
        lia.
    + exists (window (Nat.pred count)). split.
      * apply in_map, in_seq. lia.
      * unfold window. rewrite window_start.
        rewrite (window_end_last _ _ _ _ _ _ _ Hv) by (fold count; lia).
        split; [|lia].
        assert (Z.of_nat (Nat.pred count) <= q) by lia. nia.
Qed.

(** C8 (empty input).  When the text encodes to no token, [chunk_text]
    returns the empty list, whatever the configuration and the fuel: it
    raises nothing and the loop body never runs. *)
Theorem chunk_text_empty_input
    (tiktoken : Tiktoken) (encoding : Encoding) (text : string)
    (tokens : list Z) (pages_data : list PageData) (document_id : string)
    (metadata : DocMetadata) (chunk_size overlap : Z) (fuel : nat) :
  get_encoding tiktoken "cl100k_base" = Returned encoding ->
  encode encoding text = Returned tokens ->
  len tokens = 0 ->
  chunk_text fuel tiktoken text pages_data document_id metadata
    chunk_size overlap = Returned [].
Proof.
  intros Hload Henc Hz.
  rewrite (chunk_text_run _ _ _ _ pages_data document_id metadata Hload Henc).
  apply loop_exit. lia.
Qed.

(** C9 (index integrity).  Whatever the input, in a chunk list that
    [chunk_text] returns the chunk at position [i] has [chunkIndex = i] and
    [chunkId = document_id + "#chunk#" + str(i)]; and such a list is
    returned, given fuel for one iteration per token, whenever the step
    [chunk_size - overlap] is positive. *)
Theorem chunk_text_index_integrity
    (tiktoken : Tiktoken) (text : string) (pages_data : list PageData)
    (document_id : string) (metadata : DocMetadata) (chunk_size overlap : Z) :
  (forall fuel chunks,
     chunk_text fuel tiktoken text pages_data document_id metadata
       chunk_size overlap = Returned chunks ->
     forall i c,
       nth_error chunks i = Some c ->
       chunkIndex c = Z.of_nat i /\
       chunkId c = (document_id ++ "#chunk#" ++ str (Z.of_nat i))%string) /\
  (forall encoding tokens,
     get_encoding tiktoken "cl100k_base" = Returned encoding ->
     encode encoding text = Returned tokens ->
     overlap < chunk_size ->
     exists chunks,
       forall fuel, (List.length tokens <= fuel)%nat ->
         chunk_text fuel tiktoken text pages_data document_id metadata
           chunk_size overlap = Returned chunks).
Proof.
  split.
  - intros fuel chunks H i c Hc. unfold chunk_text in H.
    destruct (get_encoding tiktoken "cl100k_base") as [encoding| |];
      try discriminate.
    simpl in H.
    destruct (encode encoding text) as [tokens| |]; try discriminate.
    simpl in H. apply loop_indices in H. destruct H as (new & -> & Hnew).
    simpl in Hc. apply Hnew in Hc. rewrite !Z.add_0_l in Hc.
    destruct Hc as (Hi & Hid & _). now split.
  - intros encoding tokens Hload Henc Hstep.
    destruct (loop_terminates encoding (build_page_map pages_data) tokens
                document_id metadata chunk_size overlap
                (List.length tokens) Hstep 0 0 [])
      as [chunks Hc].
    + unfold len. lia.
    + exists chunks. intros fuel Hfuel.
      rewrite (chunk_text_run _ _ _ _ pages_data document_id metadata
                 Hload Henc).
      now apply Hc.
Qed.

(** ** Termination and configurations that are not valid *)

(** When the first window already reaches the end, the loop runs once. *)
Lemma loop_single
    (encoding : Encoding) (page_map : list PageInfo) (tokens : list Z)
    (document_id : string) (metadata : DocMetadata) (chunk_size overlap : Z)
    (fuel : nat) :
  0 < len tokens <= chunk_size ->
  chunk_loop encoding page_map tokens document_id metadata chunk_size overlap
    (S fuel) 0 0 [] =
  Returned [make_chunk encoding page_map tokens document_id metadata
              chunk_size 0 0].
Proof.
  intros H. rewrite loop_unfold.
  destruct (Z.ltb_spec 0 (len tokens)); [|lia].
  destruct (Z.geb_spec (Z.min (0 + chunk_size) (len tokens)) (len tokens));
    [reflexivity|lia].
Qed.

(** The loop has no [raise]. *)
Lemma loop_never_raises
    (encoding : Encoding) (page_map : list PageInfo) (tokens : list Z)
    (document_id : string) (metadata : DocMetadata) (chunk_size overlap : Z)
    (fuel : nat) (s i : Z) (acc : list Chunk) (e : exception) :
  chunk_loop encoding page_map tokens document_id metadata chunk_size overlap
    fuel s i acc <> Raised e.
Proof.
  revert s i acc. induction fuel as [|fuel IH]; intros s i acc.
  - simpl. destruct (s <? len tokens); discriminate.
  - rewrite loop_unfold.
    destruct (s <? len tokens); [|discriminate].
    destruct (Z.min (s + chunk_size) (len tokens) >=? len tokens);
      [discriminate|apply IH].
Qed.

(** C5 (termination).  The window loop of [chunk_text] returns whatever
    the step [chunk_size - overlap] of the configuration, however small it
    is against the number of tokens: with [overlap < chunk_size], as the
    contract of the generator has it, the step is positive and the call
    returns within one iteration per token.  For [chunk_size = 50] and
    [overlap = 49], a step of 1, and more than 50 tokens it returns
    [total_tokens - 50 + 1] chunks. *)
Theorem chunk_text_terminates
    (tiktoken : Tiktoken) (encoding : Encoding) (text : string)
    (tokens : list Z) (pages_data : list PageData) (document_id : string)
    (metadata : DocMetadata) (chunk_size overlap : Z) :
  get_encoding tiktoken "cl100k_base" = Returned encoding ->
  encode encoding text = Returned tokens ->
  (overlap < chunk_size ->
   exists chunks,
     forall fuel, (List.length tokens <= fuel)%nat ->
       chunk_text fuel tiktoken text pages_data document_id metadata
         chunk_size overlap = Returned chunks) /\
  (50 < len tokens ->
   exists chunks,
     (forall fuel, (List.length tokens <= fuel)%nat ->
        chunk_text fuel tiktoken text pages_data document_id metadata
          50 49 = Returned chunks) /\
     len chunks = len tokens - 50 + 1).
Proof.
  intros Hload Henc. split.
  - intros Hstep.
    destruct (loop_terminates encoding (build_page_map pages_data) tokens
                document_id metadata chunk_size overlap (List.length tokens)
                Hstep 0 0 [])
      as [chunks Hc]; [unfold len; lia|].
    exists chunks. intros fuel Hfuel.
    rewrite (chunk_text_run _ _ _ _ pages_data document_id metadata
               Hload Henc).
    now apply Hc.
  - intros Hbig. eexists. split.
    + intros fuel Hfuel.
      exact (chunk_text_closed_form _ _ _ _ pages_data document_id metadata
               Hload Henc fuel 50 49 ltac:(lia) Hfuel).
    + unfold len at 1. rewrite length_map, length_seq. unfold window_count.
      destruct (Z.leb_spec (len tokens) 0); [lia|].
      destruct (Z.leb_spec (len tokens) 50); [lia|].
      replace (len tokens - 50 + (50 - 49) - 1) with (len tokens - 50) by lia.
      replace (50 - 49) with 1 by lia.
      rewrite Z.div_1_r. lia.
Qed.

(** C4 (configuration errors), as the code has it.  [chunk_text] checks
    neither [chunk_size] nor [overlap] and raises nothing of its own: with
    the encoding loaded and the text encoded, and [overlap >= chunk_size] or
    [chunk_size <= 0], no fuel makes it raise.  It returns the empty list
    for no token, the single chunk [0, total_tokens) when the tokens fit in
    one chunk, a complete list when the step is still positive, and it never
    returns when [overlap >= chunk_size] and the tokens do not fit in one
    chunk. *)
Theorem chunk_text_no_configuration_check
    (tiktoken : Tiktoken) (encoding : Encoding) (text : string)
    (tokens : list Z) (pages_data : list PageData) (document_id : string)
    (metadata : DocMetadata) (chunk_size overlap : Z) :
  get_encoding tiktoken "cl100k_base" = Returned encoding ->
  encode encoding text = Returned tokens ->
  chunk_size <= overlap \/ chunk_size <= 0 ->
  (forall fuel e,
     chunk_text fuel tiktoken text pages_data document_id metadata
       chunk_size overlap <> Raised e) /\
  (len tokens = 0 ->
   forall fuel,
     chunk_text fuel tiktoken text pages_data document_id metadata
       chunk_size overlap = Returned []) /\
  (0 < len tokens <= chunk_size ->
   forall fuel, (1 <= fuel)%nat ->
     chunk_text fuel tiktoken text pages_data document_id metadata
       chunk_size overlap =
     Returned [make_chunk encoding (build_page_map pages_data) tokens
                 document_id metadata chunk_size 0 0]) /\
  (overlap < chunk_size ->
   exists chunks,
     forall fuel, (List.length tokens <= fuel)%nat ->
       chunk_text fuel tiktoken text pages_data document_id metadata
         chunk_size overlap = Returned chunks) /\
  (chunk_size <= overlap -> chunk_size < len tokens -> 0 < len tokens ->
   forall fuel,
     chunk_text fuel tiktoken text pages_data document_id metadata
       chunk_size overlap = OutOfFuel).
Proof.
  intros Hload Henc Hbad.
  assert (Hrun := chunk_text_run _ _ _ _ pages_data document_id metadata
                    Hload Henc).
  split; [|split; [|split; [|split]]].
  - intros fuel e. rewrite Hrun. apply loop_never_raises.
  - intros Hz fuel. rewrite Hrun. apply loop_exit. lia.
  - intros Hfit [|fuel] Hfuel; [lia|]. rewrite Hrun. now apply loop_single.
  - intros Hstep.
    destruct (loop_terminates encoding (build_page_map pages_data) tokens
                document_id metadata chunk_size overlap
                (List.length tokens) Hstep 0 0 [])
      as [chunks Hc]; [unfold len; lia|].
    exists chunks. intros fuel Hfuel. rewrite Hrun. now apply Hc.
  - intros Hstep Hcs Hpos fuel. rewrite Hrun. apply loop_diverges; lia.
Qed.

(** ** The page map *)

Lemma build_page_map_loop_app
    (pages_data : list PageData) (pos : Z) (acc : list PageInfo) :
  build_page_map_loop pages_data pos acc =
  acc ++ build_page_map_loop pages_data pos [].
Proof.
  revert pos acc. induction pages_data as [|p rest IH]; intros pos acc.
  - simpl. now rewrite app_nil_r.
  - simpl. rewrite IH. rewrite (IH _ [_]). now rewrite <- app_assoc.
Qed.

(** One iteration of the loop of [build_page_map]. *)
Lemma build_page_map_loop_cons
    (p : PageData) (rest : list PageData) (pos : Z) :
  build_page_map_loop (p :: rest) pos [] =
  let start := if pos >? 0 then pos + 2 else pos in
  let stop := start + len_str (get (pd_text p) "") in
  mkPageInfo start stop (get (pd_pageNumber p) 1)
    :: build_page_map_loop rest stop [].
Proof. simpl. now rewrite build_page_map_loop_app. Qed.

Lemma build_page_map_length (pages_data : list PageData) (pos : Z) :
  List.length (build_page_map_loop pages_data pos []) = List.length pages_data.
Proof.
  revert pos. induction pages_data as [|p rest IH]; intros pos;
    [reflexivity|].
  rewrite build_page_map_loop_cons. simpl. now rewrite IH.
Qed.

Lemma build_page_map_nonempty (pages_data : list PageData) (pos : Z) :
  pages_data <> [] -> build_page_map_loop pages_data pos [] <> [].
Proof.
  intros Hne E. apply (f_equal (@List.length _)) in E.
  rewrite build_page_map_length in E. destruct pages_data; [congruence|].
  discriminate.
Qed.

(** Every span starts at or after the running position and is not
    reversed. *)
Lemma span_bounds (pages_data : list PageData) :
  forall (pos : Z) (i : nat) (a : PageInfo),
    0 <= pos ->
    nth_error (build_page_map_loop pages_data pos []) i = Some a ->
    pos <= start_pos a <= end_pos a.
Proof.
  induction pages_data as [|p rest IH]; intros pos i a Hpos Ha.
  - destruct i; discriminate.
  - rewrite build_page_map_loop_cons in Ha. cbv zeta in Ha.
    pose proof (len_str_nonneg (get (pd_text p) "")) as Hlen.
    destruct i as [|i].
    + injection Ha as <-. simpl. destruct (Z.gtb_spec pos 0); lia.
    + simpl in Ha. apply IH in Ha; destruct (Z.gtb_spec pos 0); lia.
Qed.

(** A span ends before any later span starts. *)
Lemma span_monotone (pages_data : list PageData) :
  forall (pos : Z) (i j : nat) (a b : PageInfo),
    0 <= pos -> (i < j)%nat ->
    nth_error (build_page_map_loop pages_data pos []) i = Some a ->
    nth_error (build_page_map_loop pages_data pos []) j = Some b ->
    end_pos a <= start_pos b.
Proof.
  induction pages_data as [|p rest IH]; intros pos i j a b Hpos Hij Ha Hb.
  - destruct i; discriminate.
  - rewrite build_page_map_loop_cons in Ha, Hb. cbv zeta in Ha, Hb.
    pose proof (len_str_nonneg (get (pd_text p) "")) as Hlen.
    destruct j as [|j]; [lia|]. simpl in Hb.
    assert (Hstop : 0 <= (if pos >? 0 then pos + 2 else pos)
                         + len_str (get (pd_text p) ""))
      by (destruct (Z.gtb_spec pos 0); lia).
    destruct i as [|i].
    + injection Ha as <-. simpl. apply span_bounds in Hb; lia.
    + simpl in Ha. apply (IH _ i j a b Hstop); [lia|assumption|assumption].
Qed.

(** After a position that is not 0 every span starts two characters after
    the end before it. *)
Lemma span_contiguous (pages_data : list PageData) :
  forall (pos : Z),
    0 < pos ->
    (forall a, nth_error (build_page_map_loop pages_data pos []) 0 = Some a ->
               start_pos a = pos + 2) /\
    (forall i a b,
       nth_error (build_page_map_loop pages_data pos []) i = Some a ->
       nth_error (build_page_map_loop pages_data pos []) (S i) = Some b ->
       start_pos b = end_pos a + 2).
Proof.
  induction pages_data as [|p rest IH]; intros pos Hpos.
  - split; [intros a Ha|intros [|i] a b Ha]; discriminate.
  - rewrite build_page_map_loop_cons. cbv zeta.
    pose proof (len_str_nonneg (get (pd_text p) "")) as Hlen.
    destruct (Z.gtb_spec pos 0); [|lia].
    destruct (IH (pos + 2 + len_str (get (pd_text p) "")) ltac:(lia))
      as [Hfirst Hnext].
    split.
    + intros a Ha. now injection Ha as <-.
    + intros [|i] a b Ha Hb; simpl in Ha, Hb.
      * injection Ha as <-. simpl. now apply Hfirst.
      * now apply (Hnext i).
Qed.

Lemma join_cons (sep t1 t2 : string) (rest : list string) :
  len_str (join sep (t1 :: t2 :: rest)) =
  len_str t1 + len_str sep + len_str (join sep (t2 :: rest)).
Proof.
  unfold join. change (concat sep (t1 :: t2 :: rest))
    with (t1 ++ sep ++ concat sep (t2 :: rest))%string.
  rewrite !len_str_app. lia.
Qed.

(** After a position that is not 0 the last span ends where the joined
    texts end. *)
Lemma span_final (pages_data : list PageData) :
  forall (pos : Z) (final : PageInfo),
    0 < pos ->
    last_item (build_page_map_loop pages_data pos []) = Some final ->
    end_pos final =
    pos + 2 + len_str (join page_separator
                         (map (fun p => get (pd_text p) "") pages_data)).
Proof.
  induction pages_data as [|p [|q rest] IH]; intros pos final Hpos Hf.
  - discriminate.
  - simpl in Hf. destruct (Z.gtb_spec pos 0); [|lia].
    injection Hf as <-. reflexivity.
  - rewrite build_page_map_loop_cons in Hf. cbv zeta in Hf.
    pose proof (len_str_nonneg (get (pd_text p) "")) as Hlen.
    destruct (Z.gtb_spec pos 0); [|lia].
    rewrite last_item_cons in Hf by (now apply build_page_map_nonempty).
    apply IH in Hf; [|lia].
    rewrite Hf. cbn [map]. rewrite join_cons.
    change (len_str page_separator) with 2. cbn [map]. lia.
Qed.

(** The span invariant where the code keeps it: when the first page has
    text, consecutive spans are two characters apart, start offsets
    increase strictly, and the last span ends at the length of the joined
    texts. *)
Lemma build_page_map_contiguous (p : PageData) (rest : list PageData) :
  0 < len_str (get (pd_text p) "") ->
  (forall i a b,
     nth_error (build_page_map (p :: rest)) i = Some a ->
     nth_error (build_page_map (p :: rest)) (S i) = Some b ->
     end_pos a + 2 = start_pos b /\ start_pos a < start_pos b) /\
  (forall final,
     last_item (build_page_map (p :: rest)) = Some final ->
     end_pos final =
     len_str (join page_separator
                (map (fun p => get (pd_text p) "") (p :: rest)))).
Proof.
  intros Hp. unfold build_page_map. rewrite build_page_map_loop_cons.
  cbv zeta. change (0 >? 0) with false. cbv iota. rewrite Z.add_0_l.
  destruct (span_contiguous rest _ Hp) as [Hfirst Hnext].
  split.
  - assert (Hgap : forall i a b,
      nth_error (mkPageInfo 0 (len_str (get (pd_text p) ""))
                   (get (pd_pageNumber p) 1)
                 :: build_page_map_loop rest
                      (len_str (get (pd_text p) "")) []) i = Some a ->
      nth_error (mkPageInfo 0 (len_str (get (pd_text p) ""))
                   (get (pd_pageNumber p) 1)
                 :: build_page_map_loop rest
                      (len_str (get (pd_text p) "")) []) (S i) = Some b ->
      end_pos a + 2 = start_pos b).
    { intros [|i] a b Ha Hb; simpl in Ha, Hb.
      - injection Ha as <-. simpl. symmetry. now apply Hfirst.
      - symmetry. now apply (Hnext i). }
    intros i a b Ha Hb. split; [now apply (Hgap i)|].
    pose proof (Hgap i a b Ha Hb).
    destruct i as [|i]; simpl in Ha.
    + injection Ha as <-. simpl in *. lia.
    + apply span_bounds in Ha; lia.
  - intros final Hf. destruct rest as [|q rest].
    + simpl in Hf. injection Hf as <-. reflexivity.
    + rewrite last_item_cons in Hf by (now apply build_page_map_nonempty).
      apply span_final in Hf; [|exact Hp].
      rewrite Hf. cbn [map]. rewrite join_cons.
      change (len_str page_separator) with 2. cbn [map]. lia.
Qed.

(** ** The page lookup *)

Lemma contains_spec (q : PageInfo) (char_pos : Z) :
  contains q char_pos = true <-> start_pos q <= char_pos < end_pos q.
Proof.
  unfold contains. rewrite andb_true_iff, Z.leb_le, Z.ltb_lt. tauto.
Qed.

Lemma contains_false (q : PageInfo) (char_pos : Z) :
  contains q char_pos = false <-> ~ (start_pos q <= char_pos < end_pos q).
Proof.
  rewrite <- contains_spec. destruct (contains q char_pos); split; congruence.
Qed.

(** The scan stops at the first span that contains the position. *)
Lemma scan_first (char_pos : Z) (before after : list PageInfo) (p : PageInfo) :
  (forall q, In q before -> contains q char_pos = false) ->
  contains p char_pos = true ->
  scan_page_map char_pos (before ++ p :: after) = Some (page_number p).
Proof.
  induction before as [|q before IH]; intros Hb Hp; simpl.
  - now rewrite Hp.
  - rewrite (Hb q) by now left. apply IH; [|exact Hp].
    intros q' Hq'. apply Hb. now right.
Qed.

(** The scan falls through when no span contains the position. *)
Lemma scan_none (char_pos : Z) (page_map : list PageInfo) :
  (forall q, In q page_map -> contains q char_pos = false) ->
  scan_page_map char_pos page_map = None.
Proof.
  induction page_map as [|q rest IH]; intros H; simpl; [reflexivity|].
  rewrite (H q) by now left. apply IH. intros q' Hq'. apply H. now right.
Qed.

(** C7 (page lookup).  [get_page_number_for_position] returns the page
    number of the first span whose half-open interval contains the position;
    when no span contains it, the page number of the last span, or 1 for an
    empty page map.  For the page map of two pages with texts of lengths
    [L1 > 0] and [L2 > 0], positions [0] and [L1 - 1] give the first page's
    number and positions [L1 + 2] and [L1 + 2 + L2 + 100] the second's. *)
Theorem get_page_number_for_position_spec (char_pos : Z) :
  (forall before p after,
     (forall q, In q before ->
                ~ (start_pos q <= char_pos < end_pos q)) ->
     start_pos p <= char_pos < end_pos p ->
     get_page_number_for_position char_pos (before ++ p :: after) =
     page_number p) /\
  (forall page_map,
     (forall q, In q page_map ->
                ~ (start_pos q <= char_pos < end_pos q)) ->
     (page_map = [] ->
      get_page_number_for_position char_pos page_map = 1) /\
     (forall init final,
        page_map = init ++ [final] ->
        get_page_number_for_position char_pos page_map =
        page_number final)) /\
  (forall p1 p2 : PageData,
     let L1 := len_str (get (pd_text p1) "") in
     let L2 := len_str (get (pd_text p2) "") in
     let page_map := build_page_map [p1; p2] in
     0 < L1 -> 0 < L2 ->
     get_page_number_for_position 0 page_map = get (pd_pageNumber p1) 1 /\
     get_page_number_for_position (L1 - 1) page_map =
       get (pd_pageNumber p1) 1 /\
     get_page_number_for_position (L1 + 2) page_map =
       get (pd_pageNumber p2) 1 /\
     get_page_number_for_position (L1 + 2 + L2 + 100) page_map =
       get (pd_pageNumber p2) 1).
Proof.
  split; [|split].
  - intros before p after Hb Hp. unfold get_page_number_for_position.
    rewrite scan_first; [reflexivity| |now apply contains_spec].
    intros q Hq. now apply contains_false, Hb.
  - intros page_map Hnone.
    assert (Hscan : scan_page_map char_pos page_map = None).
    { apply scan_none. intros q Hq. now apply contains_false, Hnone. }
    unfold get_page_number_for_position. rewrite Hscan. split.
    + now intros ->.
    + intros init final ->. now rewrite last_item_app.
  - intros p1 p2 L1 L2 page_map H1 H2. subst page_map.
    repeat split; lookup.
Qed.

(** C10 (separator gap).  A position between the end of one span of a page
    map built by [build_page_map] and the start of the next span lies in no
    span, so [get_page_number_for_position] answers with the page number of
    the last span.  When all pages have text that gap is the two characters
    of the separator.  For two pages with texts of lengths [L1 > 0] and
    [L2 > 0], positions [L1] and [L1 + 1] give the second page's number. *)
Theorem separator_gap_maps_to_last_page (pages_data : list PageData) :
  (forall i a b char_pos,
     nth_error (build_page_map pages_data) i = Some a ->
     nth_error (build_page_map pages_data) (S i) = Some b ->
     end_pos a <= char_pos < start_pos b ->
     (forall q, In q (build_page_map pages_data) ->
                ~ (start_pos q <= char_pos < end_pos q)) /\
     (exists final,
        last_item (build_page_map pages_data) = Some final /\
        get_page_number_for_position char_pos (build_page_map pages_data) =
        page_number final) /\
     (Forall (fun p => 0 < len_str (get (pd_text p) "")) pages_data ->
      start_pos b = end_pos a + 2)) /\
  (forall p1 p2 : PageData,
     let L1 := len_str (get (pd_text p1) "") in
     let L2 := len_str (get (pd_text p2) "") in
     pages_data = [p1; p2] -> 0 < L1 -> 0 < L2 ->
     get_page_number_for_position L1 (build_page_map pages_data) =
       get (pd_pageNumber p2) 1 /\
     get_page_number_for_position (L1 + 1) (build_page_map pages_data) =
       get (pd_pageNumber p2) 1).
Proof.
  split.
  - intros i a b char_pos Ha Hb Hgap.
    assert (Hnone : forall q, In q (build_page_map pages_data) ->
                      ~ (start_pos q <= char_pos < end_pos q)).
    { intros q Hq. apply In_nth_error in Hq as [j Hj].
      unfold build_page_map in *.
      pose proof (span_bounds _ _ _ _ (Z.le_refl 0) Hj).
      pose proof (span_bounds _ _ _ _ (Z.le_refl 0) Ha).
      pose proof (span_bounds _ _ _ _ (Z.le_refl 0) Hb).
      destruct (Nat.lt_trichotomy j i) as [Hlt|[->|Hgt]].
      - pose proof (span_monotone _ _ _ _ _ _ (Z.le_refl 0) Hlt Hj Ha). lia.
      - rewrite Ha in Hj. injection Hj as <-. lia.
      - destruct (Nat.eq_dec j (S i)) as [->|Hne].
        + rewrite Hb in Hj. injection Hj as <-. lia.
        + assert (Hlt : (S i < j)%nat) by lia.
          pose proof (span_monotone _ _ _ _ _ _ (Z.le_refl 0) Hlt Hb Hj).
          lia. }
    split; [exact Hnone|]. split.
    + destruct (last_item (build_page_map pages_data)) as [final|] eqn:Hl.
      * exists final. split; [reflexivity|].
        unfold get_page_number_for_position.
        rewrite scan_none, Hl; [reflexivity|].
        intros q Hq. now apply contains_false, Hnone.
      * rewrite last_item_nth in Hl.
        apply nth_error_None in Hl.
        assert (i < List.length (build_page_map pages_data))%nat
          by (apply nth_error_Some; congruence).
        lia.
    + intros Hall. destruct pages_data as [|p rest]; [destruct i; discriminate|].
      inversion Hall as [|? ? Hp _]; subst.
      destruct (build_page_map_contiguous p rest Hp) as [Hc _].
      destruct (Hc i a b Ha Hb). lia.
  - intros p1 p2 L1 L2 -> H1 H2. split; lookup.
Qed.

(** C6 (span invariant) where the code breaks it.  For a first page without
    text followed by a page with text, [build_page_map] puts the second span
    at offset 0: it is not two characters after the first span, the start
    offsets do not increase, and the last span ends two characters before
    the end of the joined texts. *)
Theorem build_page_map_leading_empty_page :
  let pages_data := [page 1 ""; page 2 "ab"] in
  build_page_map pages_data = [mkPageInfo 0 0 1; mkPageInfo 0 2 2] /\
  (exists a b,
     nth_error (build_page_map pages_data) 0 = Some a /\
     nth_error (build_page_map pages_data) 1 = Some b /\
     end_pos a + 2 <> start_pos b /\
     ~ (start_pos a < start_pos b)) /\
  (exists final,
     last_item (build_page_map pages_data) = Some final /\
     end_pos final = 2 /\
     len_str (join page_separator
                (map (fun p => get (pd_text p) "") pages_data)) = 4).
Proof.
  cbv zeta. split; [reflexivity|]. split.
  - exists (mkPageInfo 0 0 1), (mkPageInfo 0 2 2).
    repeat split; simpl; lia.
  - exists (mkPageInfo 0 2 2). repeat split.
Qed.

(** ** The theorems at concrete inputs *)

Lemma chunk_text_overlap_law_witness :
  exists chunks,
    (forall fuel,
       (List.length (CharTokenizer.codes sample_text) <= fuel)%nat ->
       chunk_text fuel CharTokenizer.tiktoken sample_text sample_pages "doc"
         no_metadata 4 1 = Returned chunks) /\
    (2 <= List.length chunks)%nat /\
    forall i c c',
      nth_error chunks i = Some c ->
      nth_error chunks (S i) = Some c' ->
      startToken c' = startToken c + 4 - 1 /\
      endToken c - startToken c' = 1.
Proof.
  apply (chunk_text_overlap_law CharTokenizer.tiktoken CharTokenizer.encoding
           sample_text (CharTokenizer.codes sample_text) sample_pages "doc"
           no_metadata 4 1).
  - reflexivity.
  - reflexivity.
  - lia.
  - vm_compute. reflexivity.
Defined.

Lemma chunk_text_bounded_size_witness :
  exists chunks,
    (forall fuel,
       (List.length (CharTokenizer.codes sample_text) <= fuel)%nat ->
       chunk_text fuel CharTokenizer.tiktoken sample_text sample_pages "doc"
         no_metadata 4 1 = Returned chunks) /\
    forall i c,
      nth_error chunks i = Some c ->
      tokenCount c = endToken c - startToken c /\
      tokenCount c <= 4 /\
      ((S i < List.length chunks)%nat -> tokenCount c = 4).
Proof.
  apply (chunk_text_bounded_size CharTokenizer.tiktoken CharTokenizer.encoding
           sample_text (CharTokenizer.codes sample_text) sample_pages "doc"
           no_metadata 4 1).
  - reflexivity.
  - reflexivity.
  - lia.
Defined.

Lemma chunk_text_coverage_witness :
  exists chunks,
    (forall fuel,
       (List.length (CharTokenizer.codes sample_text) <= fuel)%nat ->
       chunk_text fuel CharTokenizer.tiktoken sample_text sample_pages "doc"
         no_metadata 4 1 = Returned chunks) /\
    (exists first, nth_error chunks 0 = Some first /\ startToken first = 0) /\
    (exists final, last_item chunks = Some final /\
                   endToken final = len (CharTokenizer.codes sample_text)) /\
    (forall i c c',
       nth_error chunks i = Some c ->
       nth_error chunks (S i) = Some c' ->
       startToken c' <= endToken c) /\
    (forall t, 0 <= t < len (CharTokenizer.codes sample_text) ->
       exists c, In c chunks /\ startToken c <= t < endToken c).
Proof.
  apply (chunk_text_coverage CharTokenizer.tiktoken CharTokenizer.encoding
           sample_text (CharTokenizer.codes sample_text) sample_pages "doc"
           no_metadata 4 1).
  - reflexivity.
  - reflexivity.
  - lia.
  - vm_compute. reflexivity.
Defined.

Lemma chunk_text_empty_input_witness :
  chunk_text 0 CharTokenizer.tiktoken (full_text empty_pages) empty_pages
    "doc" no_metadata default_chunk_size default_overlap = Returned [].
Proof.
  apply (chunk_text_empty_input CharTokenizer.tiktoken CharTokenizer.encoding
           (full_text empty_pages) [] empty_pages "doc" no_metadata
           default_chunk_size default_overlap 0).
  - reflexivity.
  - reflexivity.
  - reflexivity.
Defined.

Lemma chunk_text_index_integrity_witness :
  exists chunks,
    chunk_text 10 CharTokenizer.tiktoken sample_text sample_pages "doc"
      no_metadata 4 1 = Returned chunks /\
    List.length chunks = 3%nat /\
    forall i c,
      nth_error chunks i = Some c ->
      chunkIndex c = Z.of_nat i /\
      chunkId c = ("doc" ++ "#chunk#" ++ str (Z.of_nat i))%string.
Proof.
  eexists. split; [vm_compute; reflexivity|]. split; [reflexivity|].
  apply (proj1 (chunk_text_index_integrity CharTokenizer.tiktoken sample_text
                  sample_pages "doc" no_metadata 4 1) 10%nat).
  vm_compute. reflexivity.
Defined.

Lemma chunk_text_terminates_witness :
  (exists chunks,
     forall fuel,
       (List.length (CharTokenizer.codes long_text) <= fuel)%nat ->
       chunk_text fuel CharTokenizer.tiktoken long_text long_pages "doc"
         no_metadata 50 49 = Returned chunks) /\
  (exists chunks,
     (forall fuel,
        (List.length (CharTokenizer.codes long_text) <= fuel)%nat ->
        chunk_text fuel CharTokenizer.tiktoken long_text long_pages "doc"
          no_metadata 50 49 = Returned chunks) /\
     len chunks = len (CharTokenizer.codes long_text) - 50 + 1).
Proof.
  destruct (chunk_text_terminates CharTokenizer.tiktoken
              CharTokenizer.encoding long_text
              (CharTokenizer.codes long_text) long_pages "doc" no_metadata
              50 49 eq_refl eq_refl) as [Hany Hone].
  split.
  - apply Hany. lia.
  - apply Hone. vm_compute. reflexivity.
Defined.

Lemma chunk_text_no_configuration_check_witness :
  chunk_text 1 CharTokenizer.tiktoken (full_text short_pages) short_pages
    "doc" no_metadata 4 4 =
  Returned [make_chunk CharTokenizer.encoding (build_page_map short_pages)
              (CharTokenizer.codes (full_text short_pages)) "doc"
              no_metadata 4 0 0].
Proof.
  apply (chunk_text_no_configuration_check CharTokenizer.tiktoken
           CharTokenizer.encoding (full_text short_pages)
           (CharTokenizer.codes (full_text short_pages)) short_pages "doc"
           no_metadata 4 4).
  - reflexivity.
  - reflexivity.
  - left. lia.
  - vm_compute. split; [reflexivity|discriminate].
  - lia.
Defined.

Lemma get_page_number_for_position_spec_witness :
  get_page_number_for_position 0 (build_page_map sample_pages) = 1 /\
  get_page_number_for_position (4 - 1) (build_page_map sample_pages) = 1 /\
  get_page_number_for_position (4 + 2) (build_page_map sample_pages) = 2 /\
  get_page_number_for_position (4 + 2 + 4 + 100)
    (build_page_map sample_pages) = 2.
Proof.
  apply (proj2 (proj2 (get_page_number_for_position_spec 0))
           (page 1 "abcd") (page 2 "efgh")).
  - vm_compute. reflexivity.
  - vm_compute. reflexivity.
Defined.

Lemma separator_gap_maps_to_last_page_witness :
  get_page_number_for_position 4 (build_page_map sample_pages) = 2 /\
  get_page_number_for_position (4 + 1) (build_page_map sample_pages) = 2.
Proof.
  apply (proj2 (separator_gap_maps_to_last_page sample_pages)
           (page 1 "abcd") (page 2 "efgh")).
  - reflexivity.
  - vm_compute. reflexivity.
  - vm_compute. reflexivity.
Defined.

(** ** Where the code parts from the specification *)

(** C4: with [overlap >= chunk_size] on three tokens [chunk_text] returns
    one chunk, and with [chunk_size <= 0] on no token it returns the empty
    list; neither call raises. *)
Lemma chunk_text_invalid_configuration_returns :
  4 >= 4 /\
  chunk_text 1 CharTokenizer.tiktoken (full_text short_pages) short_pages
    "doc" no_metadata 4 4 =
  Returned [mkChunk "doc#chunk#0" "doc" "abc" 0 1 3 0 3
              (mkChunkMetadata "unknown.pdf" "system" 0 0)] /\
  0 <= 0 /\
  chunk_text 1 CharTokenizer.tiktoken (full_text empty_pages) empty_pages
    "doc" no_metadata 0 0 = Returned [].
Proof.
  split; [lia|]. split; [vm_compute; reflexivity|].
  split; [lia|]. vm_compute. reflexivity.
Qed.

(** * Further properties of the code *)

(** ** More on the chunks of chunk_text *)

Lemma slice_inside {A : Type} (l : list A) (a b : Z) :
  0 <= a <= b -> b <= len l ->
  slice l a b = firstn (Z.to_nat (b - a)) (skipn (Z.to_nat a) l).
Proof.
  intros Hab Hb. unfold slice, clamp.
  destruct (Z.ltb_spec a 0); [lia|].
  destruct (Z.ltb_spec b 0); [lia|].
  now rewrite !Z.min_l by lia.
Qed.

(** Every chunk the loop adds is the chunk dictionary of some iteration. *)
Lemma loop_chunks_made
    (encoding : Encoding) (page_map : list PageInfo) (tokens : list Z)
    (document_id : string) (metadata : DocMetadata) (chunk_size overlap : Z)
    (fuel : nat) :
  forall (s i : Z) (acc chunks : list Chunk),
    chunk_loop encoding page_map tokens document_id metadata chunk_size
      overlap fuel s i acc = Returned chunks ->
    exists new, chunks = acc ++ new /\
      Forall (fun c => exists s' i',
                c = make_chunk encoding page_map tokens document_id metadata
                      chunk_size s' i') new.
Proof.
  induction fuel as [|fuel IH]; intros s i acc chunks H.
  - simpl in H. destruct (s <? len tokens); [discriminate|].
    injection H as <-. exists []. split; [now rewrite app_nil_r|constructor].
  - rewrite loop_unfold in H. destruct (s <? len tokens).
    + destruct (Z.min (s + chunk_size) (len tokens) >=? len tokens).
      * injection H as <-. eexists. split; [reflexivity|].
        constructor; [now exists s, i|constructor].
      * apply IH in H. destruct H as (new & -> & Hnew).
        eexists (_ :: new). split; [now rewrite <- app_assoc|].
        constructor; [now exists s, i|exact Hnew].
    + injection H as <-. exists []. split; [now rewrite app_nil_r|constructor].
Qed.

Lemma str_inj (a b : Z) : str a = str b -> a = b.
Proof.
  unfold str. intros H.
  assert (Hn : forall n, Z.to_int n <> Decimal.Pos Decimal.Nil /\
                         Z.to_int n <> Decimal.Neg Decimal.Nil).
  { intros n. pose proof (DecimalZ.to_of (Z.to_int n)) as Hnorm.
    rewrite DecimalZ.of_to in Hnorm.
    split; intros E; rewrite E in Hnorm; discriminate. }
  apply DecimalZ.to_int_inj.
  apply (f_equal NilZero.int_of_string) in H.
  rewrite !NilZero.isi in H by apply Hn.
  now injection H.
Qed.

Lemma string_app_inv_head (p s1 s2 : string) :
  (p ++ s1)%string = (p ++ s2)%string -> s1 = s2.
Proof.
  induction p as [|c p IH]; simpl; intros H; [exact H|].
  injection H as H. now apply IH.
Qed.

Lemma window_count_mono (total cs ov1 ov2 : Z) :
  0 <= ov1 <= ov2 -> ov2 < cs ->
  (window_count total cs ov1 <= window_count total cs ov2)%nat.
Proof.
  intros Hov Hcs. unfold window_count.
  destruct (Z.leb_spec total 0); [lia|].
  destruct (Z.leb_spec total cs); [lia|].
  cbv zeta.
  set (s1 := cs - ov1). set (s2 := cs - ov2).
  assert (H1 : 0 < s1) by (unfold s1; lia).
  assert (H2 : 0 < s2) by (unfold s2; lia).
  assert (H12 : s2 <= s1) by (unfold s1, s2; lia).
  pose proof (Z.div_mod (total - cs + s1 - 1) s1 ltac:(lia)) as D1.
  pose proof (Z.mod_pos_bound (total - cs + s1 - 1) s1 H1) as M1.
  pose proof (Z.div_mod (total - cs + s2 - 1) s2 ltac:(lia)) as D2.
  pose proof (Z.mod_pos_bound (total - cs + s2 - 1) s2 H2) as M2.
  assert (Q1 : 0 <= (total - cs + s1 - 1) / s1) by (apply Z.div_pos; lia).
  assert (Q2 : 0 <= (total - cs + s2 - 1) / s2) by (apply Z.div_pos; lia).
  set (q1 := (total - cs + s1 - 1) / s1) in *.
  set (q2 := (total - cs + s2 - 1) / s2) in *.
  assert (q1 <= q2) by nia.
  lia.
Qed.

(** X1.  The number of chunks.  For a valid configuration [chunk_text] returns no
    chunk for no token, the single chunk [0, total_tokens) when the tokens
    fit in one chunk, and otherwise one chunk more than
    [(total_tokens - chunk_size)] divided by the step, rounded up. *)
Theorem chunk_text_window_count
    (tiktoken : Tiktoken) (encoding : Encoding) (text : string)
    (tokens : list Z) (pages_data : list PageData) (document_id : string)
    (metadata : DocMetadata) (chunk_size overlap : Z) :
  get_encoding tiktoken "cl100k_base" = Returned encoding ->
  encode encoding text = Returned tokens ->
  0 <= overlap < chunk_size ->
  exists chunks,
    (forall fuel, (List.length tokens <= fuel)%nat ->
       chunk_text fuel tiktoken text pages_data document_id metadata
         chunk_size overlap = Returned chunks) /\
    (len tokens = 0 -> chunks = []) /\
    (0 < len tokens <= chunk_size ->
     exists c, chunks = [c] /\ startToken c = 0 /\
               endToken c = len tokens /\ tokenCount c = len tokens) /\
    (chunk_size < len tokens ->
     len chunks =
     (len tokens - chunk_size + (chunk_size - overlap) - 1)
       / (chunk_size - overlap) + 1).
Proof.
  intros Hload Henc Hv.
  eexists. split; [|split; [|split]].
  - intros fuel Hfuel.
    exact (chunk_text_closed_form _ _ _ _ pages_data document_id metadata
             Hload Henc fuel _ _ Hv Hfuel).
  - intros Hz. unfold window_count.
    destruct (Z.leb_spec (len tokens) 0); [reflexivity|lia].
  - intros Hfit. unfold window_count.
    destruct (Z.leb_spec (len tokens) 0); [lia|].
    destruct (Z.leb_spec (len tokens) chunk_size); [|lia].
    eexists. split; [reflexivity|].
    cbn [startToken endToken tokenCount nth_window make_chunk].
    rewrite slice_len by lia. lia.
  - intros Hbig. unfold len at 1. rewrite length_map, length_seq.
    unfold window_count.
    destruct (Z.leb_spec (len tokens) 0); [lia|].
    destruct (Z.leb_spec (len tokens) chunk_size); [lia|].
    cbv zeta. rewrite Nat2Z.inj_succ, Z2Nat.id; [lia|].
    apply Z.div_pos; lia.
Qed.

(** X2.  More overlap never gives fewer chunks: for two valid configurations
    with the same chunk size, the one with the larger overlap returns at
    least as many chunks. *)
Theorem chunk_text_more_overlap_more_chunks
    (tiktoken : Tiktoken) (encoding : Encoding) (text : string)
    (tokens : list Z) (pages_data : list PageData) (document_id : string)
    (metadata : DocMetadata) (chunk_size overlap1 overlap2 : Z) :
  get_encoding tiktoken "cl100k_base" = Returned encoding ->
  encode encoding text = Returned tokens ->
  0 <= overlap1 <= overlap2 -> overlap2 < chunk_size ->
  exists chunks1 chunks2,
    (forall fuel, (List.length tokens <= fuel)%nat ->
       chunk_text fuel tiktoken text pages_data document_id metadata
         chunk_size overlap1 = Returned chunks1) /\
    (forall fuel, (List.length tokens <= fuel)%nat ->
       chunk_text fuel tiktoken text pages_data document_id metadata
         chunk_size overlap2 = Returned chunks2) /\
    (List.length chunks1 <= List.length chunks2)%nat.
Proof.
  intros Hload Henc Hov Hcs.
  do 2 eexists. split; [|split].
  - intros fuel Hfuel.
    assert (Hv : 0 <= overlap1 < chunk_size) by lia.
    exact (chunk_text_closed_form _ _ _ _ pages_data document_id metadata
             Hload Henc fuel _ _ Hv Hfuel).
  - intros fuel Hfuel.
    assert (Hv : 0 <= overlap2 < chunk_size) by lia.
    exact (chunk_text_closed_form _ _ _ _ pages_data document_id metadata
             Hload Henc fuel _ _ Hv Hfuel).
  - rewrite !length_map, !length_seq. now apply window_count_mono.
Qed.

(** X3.  Chunk ids are unique: in any list that [chunk_text] returns, whatever
    the configuration, no two chunks have the same [chunkId]. *)
Theorem chunk_text_chunk_ids_unique
    (tiktoken : Tiktoken) (text : string) (pages_data : list PageData)
    (document_id : string) (metadata : DocMetadata) (chunk_size overlap : Z)
    (fuel : nat) (chunks : list Chunk) :
  chunk_text fuel tiktoken text pages_data document_id metadata
    chunk_size overlap = Returned chunks ->
  NoDup (map chunkId chunks).
Proof.
  intros H. unfold chunk_text in H.
  destruct (get_encoding tiktoken "cl100k_base") as [encoding| |];
    try discriminate.
  simpl in H.
  destruct (encode encoding text) as [tokens| |]; try discriminate.
  simpl in H. apply loop_indices in H. destruct H as (new & -> & Hnew).
  simpl. apply NoDup_nth_error. intros i j Hi Hij.
  rewrite length_map in Hi.
  destruct (nth_error new i) as [c|] eqn:Hc;
    [|apply nth_error_None in Hc; lia].
  rewrite !nth_error_map, Hc in Hij. simpl in Hij.
  destruct (nth_error new j) as [c'|] eqn:Hc'; [|discriminate].
  simpl in Hij. injection Hij as Hid.
  destruct (Hnew i c Hc) as (_ & Hi1 & _).
  destruct (Hnew j c' Hc') as (_ & Hj1 & _).
  rewrite Hi1, Hj1 in Hid.
  apply string_app_inv_head in Hid.
  apply (string_app_inv_head "#chunk#") in Hid.
  apply str_inj in Hid. lia.
Qed.

(** X4.  Every chunk holds tokens and moves forward: for a valid configuration
    each chunk has [0 <= startToken < endToken <= total_tokens], so at least
    one token, and from one chunk to the next both [startToken] and
    [endToken] increase strictly. *)
Theorem chunk_text_chunks_progress
    (tiktoken : Tiktoken) (encoding : Encoding) (text : string)
    (tokens : list Z) (pages_data : list PageData) (document_id : string)
    (metadata : DocMetadata) (chunk_size overlap : Z) :
  get_encoding tiktoken "cl100k_base" = Returned encoding ->
  encode encoding text = Returned tokens ->
  0 <= overlap < chunk_size ->
  exists chunks,
    (forall fuel, (List.length tokens <= fuel)%nat ->
       chunk_text fuel tiktoken text pages_data document_id metadata
         chunk_size overlap = Returned chunks) /\
    (forall i c,
       nth_error chunks i = Some c ->
       0 <= startToken c < endToken c /\ endToken c <= len tokens /\
       1 <= tokenCount c) /\
    (forall i c c',
       nth_error chunks i = Some c ->
       nth_error chunks (S i) = Some c' ->
       startToken c < startToken c' /\ endToken c < endToken c').
Proof.
  intros Hload Henc Hv.
  eexists. split; [|split].
  - intros fuel Hfuel.
    exact (chunk_text_closed_form _ _ _ _ pages_data document_id metadata
             Hload Henc fuel _ _ Hv Hfuel).
  - intros i c Hc. apply nth_error_map_seq in Hc as [Hi ->].
    pose proof (window_start_lt encoding (build_page_map pages_data) tokens
                  document_id metadata chunk_size overlap Hv i Hi) as Hs.
    rewrite (window_token_count _ _ _ _ _ _ _ Hv i Hi).
    rewrite window_end in *. rewrite window_start in *.
    set (x := Z.of_nat i * (chunk_size - overlap)) in *. lia.
  - intros i c c' Hc Hc'.
    apply nth_error_map_seq in Hc as [Hi ->].
    apply nth_error_map_seq in Hc' as [Hi' ->].
    pose proof (window_start_lt encoding (build_page_map pages_data) tokens
                  document_id metadata chunk_size overlap Hv (S i) Hi') as Hs.
    assert (Hpos : 0 < len tokens) by lia.
    destruct (window_count_spec (len tokens) chunk_size overlap Hv Hpos)
      as (_ & Hlt & _).
    specialize (Hlt i Hi').
    rewrite (window_end_inner _ _ _ _ _ _ _ Hv i Hi').
    rewrite window_end, !window_start in *.
    rewrite Nat2Z.inj_succ, Z.mul_succ_l in *. lia.
Qed.

(** X5.  What a chunk holds: for a valid configuration the [text] of a chunk is
    the decoding of exactly the tokens from [startToken] up to [endToken],
    and its [pageNumber] is the page looked up at the length of the decoding
    of the tokens before [startToken]. *)
Theorem chunk_text_chunk_content
    (tiktoken : Tiktoken) (encoding : Encoding) (text0 : string)
    (tokens : list Z) (pages_data : list PageData) (document_id : string)
    (metadata : DocMetadata) (chunk_size overlap : Z) :
  get_encoding tiktoken "cl100k_base" = Returned encoding ->
  encode encoding text0 = Returned tokens ->
  0 <= overlap < chunk_size ->
  exists chunks,
    (forall fuel, (List.length tokens <= fuel)%nat ->
       chunk_text fuel tiktoken text0 pages_data document_id metadata
         chunk_size overlap = Returned chunks) /\
    forall i c,
      nth_error chunks i = Some c ->
      text c =
        decode encoding
          (firstn (Z.to_nat (endToken c - startToken c))
             (skipn (Z.to_nat (startToken c)) tokens)) /\
      pageNumber c =
        get_page_number_for_position
          (len_str (decode encoding (firstn (Z.to_nat (startToken c)) tokens)))
          (build_page_map pages_data).
Proof.
  intros Hload Henc Hv.
  eexists. split.
  - intros fuel Hfuel.
    exact (chunk_text_closed_form _ _ _ _ pages_data document_id metadata
             Hload Henc fuel _ _ Hv Hfuel).
  - intros i c Hc. apply nth_error_map_seq in Hc as [Hi ->].
    pose proof (window_start_lt encoding (build_page_map pages_data) tokens
                  document_id metadata chunk_size overlap Hv i Hi) as Hs.
    rewrite window_end, window_start in *.
    split.
    + unfold nth_window, make_chunk. cbn [text]. rewrite !Z.add_0_l.
      now rewrite slice_inside by lia.
    + unfold nth_window, make_chunk. cbn [pageNumber]. rewrite !Z.add_0_l.
      rewrite slice_inside by lia.
      now rewrite Z.sub_0_r.
Qed.

(** X6.  The only exceptions of [chunk_text] are the tokenizer's: it raises [e]
    exactly when loading the encoding raises [e], or the encoding loads and
    encoding the text raises [e]. *)
Theorem chunk_text_raises_iff
    (tiktoken : Tiktoken) (text : string) (pages_data : list PageData)
    (document_id : string) (metadata : DocMetadata) (chunk_size overlap : Z)
    (fuel : nat) (e : exception) :
  chunk_text fuel tiktoken text pages_data document_id metadata
    chunk_size overlap = Raised e <->
  (get_encoding tiktoken "cl100k_base" = Raised e \/
   exists encoding,
     get_encoding tiktoken "cl100k_base" = Returned encoding /\
     encode encoding text = Raised e).
Proof.
  unfold chunk_text.
  destruct (get_encoding tiktoken "cl100k_base") as [encoding|e'|]; simpl.
  - destruct (encode encoding text) as [tokens|e'|] eqn:Henc; simpl.
    + split.
      * intros H. now apply loop_never_raises in H.
      * intros [H|(enc & H1 & H2)]; [discriminate|].
        injection H1 as <-. congruence.
    + split.
      * intros H. injection H as ->. right. now exists encoding.
      * intros [H|(enc & H1 & H2)]; [discriminate|].
        injection H1 as <-. congruence.
    + split; [discriminate|].
      intros [H|(enc & H1 & H2)]; [discriminate|].
      injection H1 as <-. congruence.
  - split; [intros H; injection H as ->; now left|].
    intros [H|(enc & H1 & _)]; [now injection H as ->|discriminate].
  - split; [discriminate|].
    intros [H|(enc & H1 & _)]; discriminate.
Qed.

(** X7.  Every chunk carries the document: in any list that [chunk_text]
    returns, whatever the configuration, each chunk has the [documentId] of
    the call and the same four metadata entries, an absent key replaced by
    its default. *)
Theorem chunk_text_chunk_metadata
    (tiktoken : Tiktoken) (text : string) (pages_data : list PageData)
    (document_id : string) (md : DocMetadata) (chunk_size overlap : Z)
    (fuel : nat) (chunks : list Chunk) :
  chunk_text fuel tiktoken text pages_data document_id md
    chunk_size overlap = Returned chunks ->
  forall c, In c chunks ->
    documentId c = document_id /\
    filename (metadata c) = get (md_filename md) "unknown.pdf" /\
    uploadedBy (metadata c) = get (md_uploadedBy md) "system" /\
    uploadedAt (metadata c) = get (md_uploadedAt md) 0 /\
    pageCount (metadata c) = get (md_pageCount md) 0.
Proof.
  intros H c Hc. unfold chunk_text in H.
  destruct (get_encoding tiktoken "cl100k_base") as [encoding| |];
    try discriminate.
  simpl in H.
  destruct (encode encoding text) as [tokens| |]; try discriminate.
  simpl in H. apply loop_chunks_made in H. destruct H as (new & -> & Hnew).
  simpl in Hc. rewrite Forall_forall in Hnew.
  destruct (Hnew c Hc) as (s & i & ->). repeat split.
Qed.

(** ** More on the page map and the lookup *)

Lemma scan_in_map (char_pos : Z) (page_map : list PageInfo) (n : Z) :
  scan_page_map char_pos page_map = Some n ->
  exists q, In q page_map /\ contains q char_pos = true /\ n = page_number q.
Proof.
  induction page_map as [|q rest IH]; simpl; [discriminate|].
  destruct (contains q char_pos) eqn:Hq.
  - intros H. injection H as <-. exists q. auto.
  - intros H. destruct (IH H) as (q' & Hin & Hc & Hn). exists q'. auto.
Qed.

Lemma last_item_in {A : Type} (l : list A) (x : A) :
  last_item l = Some x -> In x l.
Proof.
  induction l as [|y [|z r] IH]; simpl; intros H; try discriminate.
  - injection H as <-. now left.
  - right. now apply IH.
Qed.

Lemma last_item_none {A : Type} (l : list A) : last_item l = None -> l = [].
Proof.
  induction l as [|y [|z r] IH]; simpl; intros H; try discriminate; auto.
  apply IH in H. discriminate.
Qed.

(** X9.  The lookup never invents a page: the answer is 1 for an empty page map
    and otherwise the page number of one of the spans. *)
Theorem get_page_number_for_position_in_map
    (char_pos : Z) (page_map : list PageInfo) :
  (page_map = [] -> get_page_number_for_position char_pos page_map = 1) /\
  (page_map <> [] ->
   In (get_page_number_for_position char_pos page_map)
      (map page_number page_map)).
Proof.
  split.
  - now intros ->.
  - intros Hne. unfold get_page_number_for_position.
    destruct (scan_page_map char_pos page_map) as [n|] eqn:Hs.
    + apply scan_in_map in Hs as (q & Hin & _ & ->). now apply in_map.
    + destruct (last_item page_map) as [q|] eqn:Hl.
      * apply in_map. now apply last_item_in.
      * now apply last_item_none in Hl.
Qed.

(** X10.  The shape of the page map: one span per page and in page order; a span
    carries its page's number (1 when the key is absent), starts at or
    after 0 and is as wide as its page's text (a text that is absent counts
    as empty). *)
Theorem build_page_map_shape (pages_data : list PageData) :
  List.length (build_page_map pages_data) = List.length pages_data /\
  forall i span p,
    nth_error (build_page_map pages_data) i = Some span ->
    nth_error pages_data i = Some p ->
    page_number span = get (pd_pageNumber p) 1 /\
    0 <= start_pos span /\
    end_pos span - start_pos span = len_str (get (pd_text p) "").
Proof.
  split; [apply build_page_map_length|].
  unfold build_page_map. generalize (Z.le_refl 0). generalize 0 at 2 3 as pos.
  induction pages_data as [|q rest IH]; intros pos Hpos i span p Hs Hp.
  - destruct i; discriminate.
  - rewrite build_page_map_loop_cons in Hs. cbv zeta in Hs.
    pose proof (len_str_nonneg (get (pd_text q) "")) as Hlen.
    destruct i as [|i]; simpl in Hs, Hp.
    + injection Hs as <-. injection Hp as <-. simpl.
      destruct (Z.gtb_spec pos 0); repeat split; lia.
    + refine (IH _ _ i span p Hs Hp).
      destruct (Z.gtb_spec pos 0); lia.
Qed.

(** X11.  A position inside a span is answered with that span's page: spans of
    [build_page_map] do not overlap, so the first span that contains the
    position is the only one. *)
Theorem build_page_map_lookup_inside
    (pages_data : list PageData) (i : nat) (span : PageInfo) (char_pos : Z) :
  nth_error (build_page_map pages_data) i = Some span ->
  start_pos span <= char_pos < end_pos span ->
  get_page_number_for_position char_pos (build_page_map pages_data) =
  page_number span.
Proof.
  intros Hs Hin.
  destruct (nth_error_split _ _ Hs) as (before & after & Heq & Hlen).
  rewrite Heq. unfold get_page_number_for_position.
  rewrite scan_first; [reflexivity| |now apply contains_spec].
  intros q Hq. apply contains_false.
  apply In_nth_error in Hq as [j Hj].
  assert (Hji : (j < i)%nat).
  { rewrite <- Hlen. apply nth_error_Some. congruence. }
  assert (Hj' : nth_error (build_page_map pages_data) j = Some q).
  { rewrite Heq, nth_error_app1; [exact Hj|lia]. }
  unfold build_page_map in *.
  pose proof (span_monotone _ _ _ _ _ _ (Z.le_refl 0) Hji Hj' Hs). lia.
Qed.

(** X12.  A page without text is never matched: its span is empty, so no
    position lies in it. *)
Theorem build_page_map_empty_page_unreachable
    (pages_data : list PageData) (i : nat) (span : PageInfo) (p : PageData) :
  nth_error (build_page_map pages_data) i = Some span ->
  nth_error pages_data i = Some p ->
  get (pd_text p) "" = "" ->
  start_pos span = end_pos span /\
  forall char_pos, contains span char_pos = false.
Proof.
  intros Hs Hp Ht.
  destruct (proj2 (build_page_map_shape pages_data) i span p Hs Hp)
    as (_ & _ & Hw).
  rewrite Ht in Hw. change (len_str "") with 0 in Hw.
  split; [lia|]. intros char_pos. apply contains_false. lia.
Qed.

Lemma string_app_assoc (a b c : string) :
  ((a ++ b) ++ c)%string = (a ++ b ++ c)%string.
Proof. induction a as [|x a IH]; simpl; [reflexivity|now rewrite IH]. Qed.

Lemma substring_app_skip (a b : string) (n m : nat) :
  substring (String.length a + n) m (a ++ b) = substring n m b.
Proof. induction a as [|x a IH]; simpl; [reflexivity|exact IH]. Qed.

Lemma substring_prefix (a b : string) :
  substring 0 (String.length a) (a ++ b) = a.
Proof.
  induction a as [|x a IH]; simpl.
  - now destruct b.
  - now rewrite IH.
Qed.

Lemma join_head (sep t : string) (l : list string) :
  exists tail, join sep (t :: l) = (t ++ tail)%string.
Proof.
  destruct l as [|t2 l].
  - exists "". simpl. induction t as [|x t IH]; simpl; [reflexivity|].
    now rewrite <- IH.
  - now exists (sep ++ join sep (t2 :: l))%string.
Qed.

(** Past a prefix that is not empty, every span cuts its page's text out
    of the prefix followed by the separator and the joined texts. *)
Lemma span_text (rest : list PageData) :
  forall (prefix : string) (i : nat) (span : PageInfo) (q : PageData),
    0 < len_str prefix ->
    nth_error (build_page_map_loop rest (len_str prefix) []) i = Some span ->
    nth_error rest i = Some q ->
    substring (Z.to_nat (start_pos span))
      (Z.to_nat (end_pos span - start_pos span))
      (prefix ++ page_separator ++ full_text rest) = get (pd_text q) "".
Proof.
  induction rest as [|r rest IH]; intros prefix i span q Hpre Hs Hq.
  - destruct i; discriminate.
  - rewrite build_page_map_loop_cons in Hs. cbv zeta in Hs.
    destruct (Z.gtb_spec (len_str prefix) 0); [|lia].
    unfold full_text. cbn [map].
    destruct i as [|i]; simpl in Hs, Hq.
    + injection Hs as <-. injection Hq as <-. cbn [start_pos end_pos].
      destruct (join_head page_separator (get (pd_text r) "")
                  (map (fun p => get (pd_text p) "") rest)) as [tail ->].
      rewrite <- string_app_assoc.
      replace (Z.to_nat (len_str prefix + 2))
        with (String.length (prefix ++ page_separator) + 0)%nat
        by (rewrite length_string_app; unfold len_str; simpl; lia).
      rewrite substring_app_skip.
      replace (Z.to_nat (len_str prefix + 2 + len_str (get (pd_text r) "")
                         - (len_str prefix + 2)))
        with (String.length (get (pd_text r) ""))
        by (unfold len_str; lia).
      apply substring_prefix.
    + destruct rest as [|r2 rest]; [destruct i; discriminate|].
      change (join page_separator
                (get (pd_text r) ""
                 :: map (fun p => get (pd_text p) "") (r2 :: rest)))
        with (get (pd_text r) "" ++ page_separator
              ++ full_text (r2 :: rest))%string.
      replace (prefix ++ page_separator ++ get (pd_text r) ""
               ++ page_separator ++ full_text (r2 :: rest))%string
        with ((prefix ++ page_separator ++ get (pd_text r) "")
              ++ page_separator ++ full_text (r2 :: rest))%string
        by (now rewrite !string_app_assoc).
      replace (len_str prefix + 2 + len_str (get (pd_text r) ""))
        with (len_str (prefix ++ page_separator ++ get (pd_text r) ""))
        in Hs
        by (rewrite !len_str_app; change (len_str page_separator) with 2; lia).
      apply (IH _ i span q); [|exact Hs|exact Hq].
      rewrite !len_str_app. change (len_str page_separator) with 2.
      pose proof (len_str_nonneg (get (pd_text r) "")). lia.
Qed.

(** X13.  The page map fits the joined text: when the first page has text, every
    span of [build_page_map] cuts exactly its page's text out of the text
    that [extract_text] joins from the pages. *)
Theorem build_page_map_spans_text
    (p : PageData) (rest : list PageData) (i : nat) (span : PageInfo)
    (q : PageData) :
  0 < len_str (get (pd_text p) "") ->
  nth_error (build_page_map (p :: rest)) i = Some span ->
  nth_error (p :: rest) i = Some q ->
  substring (Z.to_nat (start_pos span))
    (Z.to_nat (end_pos span - start_pos span))
    (full_text (p :: rest)) = get (pd_text q) "".
Proof.
  intros Hp Hs Hq. unfold build_page_map in Hs.
  rewrite build_page_map_loop_cons in Hs. cbv zeta in Hs.
  change (0 >? 0) with false in Hs. cbv iota in Hs.
  rewrite Z.add_0_l in Hs.
  destruct i as [|i]; simpl in Hs, Hq.
  - injection Hs as <-. injection Hq as <-. cbn [start_pos end_pos].
    unfold full_text. cbn [map].
    destruct (join_head page_separator (get (pd_text p) "")
                (map (fun p => get (pd_text p) "") rest)) as [tail ->].
    rewrite Z.sub_0_r. unfold len_str. rewrite Nat2Z.id.
    apply substring_prefix.
  - destruct rest as [|r rest]; [destruct i; discriminate|].
    change (full_text (p :: r :: rest))
      with (get (pd_text p) "" ++ page_separator
            ++ full_text (r :: rest))%string.
    now apply (span_text (r :: rest) _ i span q).
Qed.

Lemma build_page_map_numbers (pages_data : list PageData) (pos : Z) :
  map page_number (build_page_map_loop pages_data pos []) =
  map (fun p => get (pd_pageNumber p) 1) pages_data.
Proof.
  revert pos. induction pages_data as [|p rest IH]; intros pos;
    [reflexivity|].
  rewrite build_page_map_loop_cons. cbv zeta. cbn [map page_number].
  now rewrite IH.
Qed.

(** X8.  Chunks get page numbers of the document: in any list that [chunk_text]
    returns, whatever the configuration, the [pageNumber] of a chunk is the
    page number of one of the pages (1 for a page without the key), and it
    is 1 when there is no page. *)
Theorem chunk_text_page_numbers_valid
    (tiktoken : Tiktoken) (text : string) (pages_data : list PageData)
    (document_id : string) (metadata : DocMetadata) (chunk_size overlap : Z)
    (fuel : nat) (chunks : list Chunk) :
  chunk_text fuel tiktoken text pages_data document_id metadata
    chunk_size overlap = Returned chunks ->
  forall c, In c chunks ->
    (pages_data = [] -> pageNumber c = 1) /\
    (pages_data <> [] ->
     In (pageNumber c) (map (fun p => get (pd_pageNumber p) 1) pages_data)).
Proof.
  intros H c Hc. unfold chunk_text in H.
  destruct (get_encoding tiktoken "cl100k_base") as [encoding| |];
    try discriminate.
  simpl in H.
  destruct (encode encoding text) as [tokens| |]; try discriminate.
  simpl in H. apply loop_chunks_made in H. destruct H as (new & -> & Hnew).
  simpl in Hc. rewrite Forall_forall in Hnew.
  destruct (Hnew c Hc) as (s & i & ->).
  unfold make_chunk. cbn [pageNumber].
  split.
  - intros ->. reflexivity.
  - intros Hne.
    rewrite <- (build_page_map_numbers pages_data 0).
    apply get_page_number_for_position_in_map.
    now apply build_page_map_nonempty.
Qed.

(** ** strip *)

Lemma rstrip_idempotent (s : string) : rstrip (rstrip s) = rstrip s.
Proof.
  induction s as [|c r IH]; [reflexivity|].
  cbn [rstrip]. destruct (rstrip r) as [|c' r'] eqn:Hr.
  - destruct (isspace c) eqn:Hc; [reflexivity|]. cbn [rstrip]. now rewrite Hc.
  - change (rstrip (String c (String c' r')))
      with (match rstrip (String c' r') with
            | EmptyString =>
                if isspace c then EmptyString else String c EmptyString
            | String _ _ as r'' => String c r''
            end).
    now rewrite IH.
Qed.

(** A string is ready for [rstrip] to keep its head when it is empty or
    starts with a character that is no space. *)
Lemma lstrip_head (s : string) :
  lstrip s = "" \/ exists c r, lstrip s = String c r /\ isspace c = false.
Proof.
  induction s as [|c r IH]; [now left|].
  cbn [lstrip]. destruct (isspace c) eqn:Hc; [exact IH|].
  right. now exists c, r.
Qed.

Lemma lstrip_rstrip_head (c : ascii) (r : string) :
  isspace c = false ->
  lstrip (rstrip (String c r)) = rstrip (String c r).
Proof.
  intros Hc. cbn [rstrip]. destruct (rstrip r); rewrite ?Hc; cbn [lstrip];
    now rewrite Hc.
Qed.

(** Stripping twice is stripping once: what [strip] returns has no space at
    either end. *)
Lemma strip_idempotent (s : string) : strip (strip s) = strip s.
Proof.
  unfold strip.
  destruct (lstrip_head s) as [->|(c & r & -> & Hc)]; [reflexivity|].
  rewrite (lstrip_rstrip_head c r Hc). apply rstrip_idempotent.
Qed.

Lemma rstrip_nonspace (a b : string) (c : ascii) :
  isspace c = false -> rstrip (a ++ String c b) <> "".
Proof.
  intros Hc. induction a as [|x a IH]; cbn [append rstrip].
  - destruct (rstrip b); [rewrite Hc|]; discriminate.
  - destruct (rstrip (a ++ String c b)); [contradiction|discriminate].
Qed.

Lemma lstrip_nonspace (a b : string) (c : ascii) :
  isspace c = false ->
  exists a', lstrip (a ++ String c b) = (a' ++ String c b)%string.
Proof.
  intros Hc. induction a as [|x a IH]; cbn [append lstrip].
  - rewrite Hc. now exists "".
  - destruct (isspace x); [exact IH|]. now exists (String x a).
Qed.

(** A string with a character that is no space does not strip to the
    empty string. *)
Lemma strip_nonspace (a b : string) (c : ascii) :
  isspace c = false -> strip (a ++ String c b) <> "".
Proof.
  intros Hc. unfold strip.
  destruct (lstrip_nonspace a b c Hc) as [a' ->].
  now apply rstrip_nonspace.
Qed.

Lemma truthy_true (s : string) : truthy s = true <-> s <> "".
Proof. destruct s; simpl; split; congruence. Qed.

Lemma format_cell_stripped (cell : option string) :
  strip (format_cell cell) = format_cell cell.
Proof.
  destruct cell as [s|]; [|reflexivity]. simpl.
  destruct (truthy s); [apply strip_idempotent|reflexivity].
Qed.

(** ** format_tables *)

Lemma format_rows_app (table : Table) (table_lines : list string) :
  format_rows table table_lines = table_lines ++ format_rows table [].
Proof.
  revert table_lines.
  induction table as [|row rest IH]; intros table_lines; simpl.
  - now rewrite app_nil_r.
  - destruct (truthy _).
    + rewrite IH, (IH [_]). now rewrite <- app_assoc.
    + apply IH.
Qed.

(** X14.  Which rows of a table become lines.  A row with two or more cells
    always does, even when all its cells are empty; a row with one cell does
    when the cell formats to text; a row without cells does not.  The lines
    keep the order of the rows. *)
Theorem format_rows_kept (table : Table) (table_lines : list string) :
  format_rows table table_lines =
  table_lines ++
  map (fun row => join " | " (map format_cell row))
    (filter (fun row =>
               match row with
               | [] => false
               | [cell] => truthy (format_cell cell)
               | _ :: _ :: _ => true
               end) table).
Proof.
  revert table_lines.
  induction table as [|row rest IH]; intros table_lines.
  - simpl. now rewrite app_nil_r.
  - cbn [format_rows filter].
    assert (Hkeep :
      truthy (strip (join " | " (map format_cell row))) =
      match row with
      | [] => false
      | [cell] => truthy (format_cell cell)
      | _ :: _ :: _ => true
      end).
    { destruct row as [|c1 [|c2 row]].
      - reflexivity.
      - cbn [map join concat]. now rewrite format_cell_stripped.
      - apply truthy_true. cbn [map].
        change (join " | "
                  (format_cell c1 :: format_cell c2 :: map format_cell row))
          with (format_cell c1 ++ " | "
                ++ join " | " (format_cell c2 :: map format_cell row))%string.
        replace (format_cell c1 ++ " | "
                 ++ join " | " (format_cell c2 :: map format_cell row))%string
          with ((format_cell c1 ++ " ")
                ++ String "|"
                     (" " ++ join " | "
                               (format_cell c2 :: map format_cell row)))%string
          by (now rewrite string_app_assoc).
        now apply strip_nonspace. }
    rewrite Hkeep.
    destruct (match row with
              | [] => false
              | [cell] => truthy (format_cell cell)
              | _ :: _ :: _ => true
              end).
    + rewrite IH. cbn [map]. now rewrite <- app_assoc.
    + apply IH.
Qed.

Lemma format_tables_loop_app (tables : list Table) (table_idx : Z)
    (acc : list string) :
  format_tables_loop tables table_idx acc =
  acc ++ format_tables_loop tables table_idx [].
Proof.
  revert table_idx acc.
  induction tables as [|table rest IH]; intros table_idx acc; simpl.
  - now rewrite app_nil_r.
  - destruct table.
    + apply IH.
    + rewrite IH, (IH _ [_]). now rewrite <- app_assoc.
Qed.

(** The text of a table starts with its label. *)
Lemma format_table_label (table_idx : Z) (table : Table) :
  exists tail,
    format_table table_idx table =
    ("[Table " ++ str table_idx ++ "]" ++ tail)%string.
Proof.
  unfold format_table. rewrite format_rows_app. cbn [app].
  destruct (join_head (String newline "")
              ("[Table " ++ str table_idx ++ "]")%string
              (format_rows table [])) as [tail ->].
  exists tail. now rewrite !string_app_assoc.
Qed.

(** X15.  Tables are labelled by their position on the page.  The table at
    0-based position [k] that is not empty gives one entry, which starts
    with the label [Table k+1]: an empty table gives no entry but still uses
    up its number.  There are as many entries as tables that are not
    empty. *)
Theorem format_tables_labels (tables : list Table) :
  List.length (format_tables_loop tables 1 []) =
  List.length (filter (fun table => match table with
                                    | [] => false
                                    | _ :: _ => true
                                    end) tables) /\
  (forall k table,
     nth_error tables k = Some table -> table <> [] ->
     In (format_table (Z.of_nat k + 1) table)
        (format_tables_loop tables 1 [])) /\
  (forall entry,
     In entry (format_tables_loop tables 1 []) ->
     exists k table,
       nth_error tables k = Some table /\ table <> [] /\
       entry = format_table (Z.of_nat k + 1) table).
Proof.
  generalize 1 as first. induction tables as [|table rest IH]; intros first.
  - split; [reflexivity|]. split.
    + intros [|k] table H; discriminate.
    + intros entry [].
  - destruct (IH (first + 1)) as (Hlen & Hin & Hout).
    cbn [format_tables_loop filter]. destruct table as [|row table].
    + split; [exact Hlen|]. split.
      * intros [|k] table Hk Hne; simpl in Hk.
        -- injection Hk as <-. contradiction.
        -- replace (Z.of_nat (S k) + first) with (Z.of_nat k + (first + 1))
             by lia.
           now apply Hin.
      * intros entry He. destruct (Hout entry He) as (k & t & Hk & Hne & ->).
        exists (S k), t. repeat split; auto. f_equal. lia.
    + rewrite format_tables_loop_app. cbn [app List.length].
      split; [now rewrite Hlen|]. split.
      * intros [|k] t Hk Hne; simpl in Hk.
        -- injection Hk as <-. left. reflexivity.
        -- right.
           replace (Z.of_nat (S k) + first) with (Z.of_nat k + (first + 1))
             by lia.
           now apply Hin.
      * intros entry [<-|He].
        -- exists O, (row :: table).
           split; [reflexivity|]. split; [discriminate|reflexivity].
        -- destruct (Hout entry He) as (k & t & Hk & Hne & ->).
           exists (S k), t. repeat split; auto. f_equal. lia.
Qed.

Lemma format_tables_loop_nil (tables : list Table) (table_idx : Z) :
  format_tables_loop tables table_idx [] = [] <->
  Forall (fun table => table = []) tables.
Proof.
  revert table_idx. induction tables as [|table rest IH]; intros table_idx.
  - split; [constructor|reflexivity].
  - cbn [format_tables_loop]. destruct table as [|row table].
    + rewrite IH. split; [now constructor|].
      intros H. now inversion H.
    + rewrite format_tables_loop_app. split; [discriminate|].
      intros H. inversion H. discriminate.
Qed.

(** What [format_tables] returns starts with the label of the first table
    that is not empty. *)
Lemma format_tables_head (tables : list Table) :
  format_tables_loop tables 1 [] <> [] ->
  exists tail, format_tables tables = String "[" tail.
Proof.
  intros Hne. unfold format_tables.
  destruct (format_tables_loop tables 1 []) as [|entry entries] eqn:E;
    [contradiction|].
  assert (Hin : In entry (format_tables_loop tables 1 []))
    by (rewrite E; now left).
  apply (proj2 (proj2 (format_tables_labels tables))) in Hin.
  destruct Hin as (k & table & _ & _ & ->).
  destruct (format_table_label (Z.of_nat k + 1) table) as [tail1 ->].
  destruct (join_head page_separator
              ("[Table " ++ str (Z.of_nat k + 1) ++ "]" ++ tail1)%string
              entries) as [tail2 ->].
  eexists. reflexivity.
Qed.

(** X16.  [format_tables] returns the empty string exactly when every table is
    empty (no table at all included): a table with rows, even rows that are
    all dropped, always gives text. *)
Theorem format_tables_empty_iff (tables : list Table) :
  format_tables tables = "" <-> Forall (fun table => table = []) tables.
Proof.
  rewrite <- (format_tables_loop_nil tables 1). split.
  - intros H.
    destruct (format_tables_loop tables 1 []) as [|entry entries] eqn:E;
      [reflexivity|].
    destruct (format_tables_head tables) as [tail Ht].
    + rewrite E. discriminate.
    + rewrite Ht in H. discriminate H.
  - intros H. unfold format_tables. now rewrite H.
Qed.

(** ** extract_text_from_pdf *)

Lemma extract_pages_loop_app (pages : list PdfPage) (page_num : Z)
    (acc : list ExtractedPage) :
  extract_pages_loop pages page_num acc =
  acc ++ extract_pages_loop pages page_num [].
Proof.
  revert page_num acc.
  induction pages as [|page rest IH]; intros page_num acc; simpl.
  - now rewrite app_nil_r.
  - rewrite IH, (IH _ [_]). now rewrite <- app_assoc.
Qed.

Lemma extract_pages_loop_nth (pages : list PdfPage) :
  forall (page_num : Z) (i : nat),
    nth_error (extract_pages_loop pages page_num []) i =
    option_map (extract_page (page_num + Z.of_nat i)) (nth_error pages i).
Proof.
  induction pages as [|page rest IH]; intros page_num i.
  - destruct i; reflexivity.
  - cbn [extract_pages_loop]. rewrite extract_pages_loop_app. cbn [app].
    destruct i as [|i]; cbn [nth_error option_map].
    + now rewrite Z.add_0_r.
    + rewrite IH. do 2 f_equal. lia.
Qed.

Lemma extract_page_number (page_num : Z) (page : PdfPage) :
  pd_pageNumber (ep_page (extract_page page_num page)) = Some page_num.
Proof.
  unfold extract_page.
  destruct (page_extract_text page); [|reflexivity].
  destruct (page_extract_tables page); reflexivity.
Qed.

(** X17.  Pages keep their numbers.  When the PDF opens, [extract_text_from_pdf]
    returns one entry per page in page order, and the entry at 0-based
    position [i] has [pageNumber = i + 1], also when extracting that page
    raised; the call fails only when opening fails, with the exception of
    the opening. *)
Theorem extract_text_from_pdf_page_numbers
    (pdfplumber : Pdfplumber) (pdf_bytes : string) :
  (forall e,
     extract_text_from_pdf pdfplumber pdf_bytes = Err e <->
     pdf_open pdfplumber pdf_bytes = Err e) /\
  (forall pdf_pages,
     pdf_open pdfplumber pdf_bytes = Ok pdf_pages ->
     exists pages_data,
       extract_text_from_pdf pdfplumber pdf_bytes = Ok pages_data /\
       List.length pages_data = List.length pdf_pages /\
       forall i entry,
         nth_error pages_data i = Some entry ->
         pd_pageNumber (ep_page entry) = Some (Z.of_nat i + 1)).
Proof.
  unfold extract_text_from_pdf. split.
  - intros e. destruct (pdf_open pdfplumber pdf_bytes); split; congruence.
  - intros pdf_pages ->. eexists. split; [reflexivity|]. split.
    + generalize 1. induction pdf_pages as [|page rest IH]; intros n;
        [reflexivity|].
      cbn [extract_pages_loop]. rewrite extract_pages_loop_app.
      cbn [app List.length]. now rewrite IH.
    + intros i entry Hi. rewrite extract_pages_loop_nth in Hi.
      destruct (nth_error pdf_pages i) as [page|]; [|discriminate].
      remember (1 + Z.of_nat i) as n eqn:Hn.
      cbn [option_map] in Hi. injection Hi as <-.
      rewrite extract_page_number. f_equal. lia.
Qed.

(** X18.  A page that fails is kept as an empty page.  When [extract_text] or
    [extract_tables] raises on a page, the entry of that page has the empty
    text, the message of the exception under ['error'], and neither
    ['hasTable'] nor ['tableCount']. *)
Theorem extract_text_from_pdf_failed_page
    (pdfplumber : Pdfplumber) (pdf_bytes : string)
    (pdf_pages : list PdfPage) (i : nat) (page : PdfPage) (e : exception) :
  pdf_open pdfplumber pdf_bytes = Ok pdf_pages ->
  nth_error pdf_pages i = Some page ->
  (page_extract_text page = Err e \/
   (exists extracted, page_extract_text page = Ok extracted) /\
   page_extract_tables page = Err e) ->
  exists pages_data entry,
    extract_text_from_pdf pdfplumber pdf_bytes = Ok pages_data /\
    nth_error pages_data i = Some entry /\
    pd_text (ep_page entry) = Some "" /\
    ep_error entry = Some (str_exception e) /\
    pd_hasTable (ep_page entry) = None /\
    pd_tableCount (ep_page entry) = None.
Proof.
  intros Hopen Hpage Hfail. unfold extract_text_from_pdf. rewrite Hopen.
  do 2 eexists. split; [reflexivity|].
  rewrite extract_pages_loop_nth, Hpage. split; [reflexivity|].
  unfold extract_page.
  destruct Hfail as [->|[[extracted ->] ->]]; repeat split.
Qed.

(** X19.  Page texts are stripped.  Every entry that [extract_text_from_pdf]
    returns has a ['text'], and that text has no space at either end:
    stripping it again changes nothing. *)
Theorem extract_text_from_pdf_text_stripped
    (pdfplumber : Pdfplumber) (pdf_bytes : string)
    (pages_data : list ExtractedPage) (entry : ExtractedPage) :
  extract_text_from_pdf pdfplumber pdf_bytes = Ok pages_data ->
  In entry pages_data ->
  exists t, pd_text (ep_page entry) = Some t /\ strip t = t.
Proof.
  unfold extract_text_from_pdf.
  destruct (pdf_open pdfplumber pdf_bytes) as [pdf_pages|]; [|discriminate].
  intros H Hin. injection H as <-.
  apply In_nth_error in Hin as [i Hi].
  rewrite extract_pages_loop_nth in Hi.
  destruct (nth_error pdf_pages i) as [page|]; [|discriminate].
  cbn [option_map] in Hi. injection Hi as <-. unfold extract_page.
  destruct (page_extract_text page); [|now exists ""].
  destruct (page_extract_tables page); [|now exists ""].
  eexists. split; [reflexivity|]. apply strip_idempotent.
Qed.

(** X20.  A page with a table has text.  When both extractions of a page return
    and one of its tables is not empty, the text of the entry is not empty,
    whatever [extract_text] gave. *)
Theorem extract_text_from_pdf_table_page_has_text
    (page_num : Z) (page : PdfPage) (extracted : option string)
    (tables : list Table) :
  page_extract_text page = Ok extracted ->
  page_extract_tables page = Ok tables ->
  ~ Forall (fun table => table = []) tables ->
  exists t,
    pd_text (ep_page (extract_page page_num page)) = Some t /\ t <> "" /\
    pd_hasTable (ep_page (extract_page page_num page)) = Some true.
Proof.
  intros Ht Htab Hne. unfold extract_page. rewrite Ht, Htab.
  destruct tables as [|table tables]; [exfalso; apply Hne; constructor|].
  destruct (format_tables_head (table :: tables)) as [tail Hhead].
  { intros E. now apply format_tables_loop_nil in E. }
  rewrite Hhead.
  cbn [truthy]. eexists. split; [reflexivity|]. split.
  - replace (or_empty extracted ++ page_separator ++ String "[" tail)%string
      with ((or_empty extracted ++ page_separator) ++ String "[" tail)%string
      by (now rewrite string_app_assoc).
    now apply strip_nonspace.
  - reflexivity.
Qed.

(** X21.  From the PDF to the chunks, as [extract_text] chains them: the pages of
    [extract_text_from_pdf] are joined and given to [chunk_text].  Every
    chunk then has a page number between 1 and the number of pages of the
    PDF (and 1 for a PDF without pages), whatever the configuration and
    also when pages failed. *)
Theorem extracted_chunks_page_numbers
    (pdfplumber : Pdfplumber) (pdf_bytes : string) (pdf_pages : list PdfPage)
    (pages_data : list ExtractedPage)
    (tiktoken : Tiktoken) (document_id : string) (metadata : DocMetadata)
    (chunk_size overlap : Z) (fuel : nat) (chunks : list Chunk) :
  pdf_open pdfplumber pdf_bytes = Ok pdf_pages ->
  extract_text_from_pdf pdfplumber pdf_bytes = Ok pages_data ->
  chunk_text fuel tiktoken (full_text (map ep_page pages_data))
    (map ep_page pages_data) document_id metadata chunk_size overlap =
    Returned chunks ->
  forall c, In c chunks ->
    (pdf_pages = [] -> pageNumber c = 1) /\
    (pdf_pages <> [] -> 1 <= pageNumber c <= len pdf_pages).
Proof.
  intros Hopen Hext Hchunks c Hc.
  destruct (proj2 (extract_text_from_pdf_page_numbers pdfplumber pdf_bytes)
              pdf_pages Hopen) as (pages' & Hext' & Hlen & Hnum).
  rewrite Hext in Hext'. injection Hext' as <-.
  destruct (chunk_text_page_numbers_valid _ _ _ _ _ _ _ _ _ Hchunks c Hc)
    as [Hnil Hin].
  split.
  - intros ->. apply Hnil. now destruct pages_data.
  - intros Hne.
    assert (Hne' : map ep_page pages_data <> []).
    { destruct pages_data; [|discriminate].
      destruct pdf_pages; [contradiction|discriminate]. }
    specialize (Hin Hne'). rewrite map_map in Hin.
    apply in_map_iff in Hin as (entry & Hn & Hentry).
    apply In_nth_error in Hentry as [i Hi].
    assert (Hi' : (i < List.length pages_data)%nat)
      by (apply nth_error_Some; congruence).
    rewrite (Hnum i entry Hi) in Hn. cbn [get] in Hn.
    unfold len. lia.
Qed.

(** ** The object key *)

Lemma split_nonempty (sep : ascii) (s : string) : split sep s <> [].
Proof.
  destruct s as [|c r]; cbn [split]; [discriminate|].
  destruct (Ascii.eqb c sep); [discriminate|].
  destruct (split sep r); discriminate.
Qed.

Lemma split_no_sep (sep : ascii) (s : string) :
  ~ In sep (list_ascii_of_string s) -> split sep s = [s].
Proof.
  induction s as [|c r IH]; intros Hno; [reflexivity|].
  cbn [split]. cbn [list_ascii_of_string] in Hno.
  destruct (Ascii.eqb_spec c sep) as [->|Hc].
  - exfalso. apply Hno. now left.
  - rewrite IH; [reflexivity|]. intros Hin. apply Hno. now right.
Qed.

Lemma split_app_sep (sep : ascii) (a b : string) :
  split sep (a ++ String sep b) = split sep a ++ split sep b.
Proof.
  induction a as [|c a IH]; cbn [append split].
  - now rewrite Ascii.eqb_refl.
  - destruct (Ascii.eqb c sep).
    + now rewrite IH.
    + rewrite IH. pose proof (split_nonempty sep a) as Hne.
      destruct (split sep a); [contradiction|reflexivity].
Qed.

(** X22.  The file name is what follows the last slash: for a [name] without
    slash, the file name of [name] and of [dir/name] is [name], whatever
    [dir]. *)
Theorem key_filename_after_last_slash (dir name : string) :
  ~ In "/"%char (list_ascii_of_string name) ->
  key_filename name = name /\
  key_filename (dir ++ "/" ++ name) = name.
Proof.
  intros Hno. unfold key_filename. split.
  - now rewrite (split_no_sep _ _ Hno).
  - change (dir ++ "/" ++ name)%string with (dir ++ String "/" name)%string.
    rewrite split_app_sep, (split_no_sep _ _ Hno), last_item_app.
    destruct (split "/" dir ++ [name]) eqn:E; [|reflexivity].
    now destruct (split "/" dir).
Qed.

(** X23.  The document id is what stands between the first and the second slash:
    for [first] and [id] without slash, the document id of [first/id] and
    of [first/id/tail] is [id], whatever [tail]; a key without slash has
    the document id [unknown]. *)
Theorem key_document_id_second_part (first id tail : string) :
  ~ In "/"%char (list_ascii_of_string first) ->
  ~ In "/"%char (list_ascii_of_string id) ->
  key_document_id first = "unknown" /\
  key_document_id (first ++ "/" ++ id) = id /\
  key_document_id (first ++ "/" ++ id ++ "/" ++ tail) = id.
Proof.
  intros Hfirst Hid. unfold key_document_id. split; [|split].
  - now rewrite (split_no_sep _ _ Hfirst).
  - change (first ++ "/" ++ id)%string with (first ++ String "/" id)%string.
    now rewrite split_app_sep, (split_no_sep _ _ Hfirst),
      (split_no_sep _ _ Hid).
  - change (first ++ "/" ++ id ++ "/" ++ tail)%string
      with (first ++ String "/" (id ++ String "/" tail))%string.
    rewrite !split_app_sep, (split_no_sep _ _ Hfirst), (split_no_sep _ _ Hid).
    cbn [app nth]. pose proof (split_nonempty "/" tail) as Hne.
    destruct (split "/" tail) as [|part parts]; [contradiction|].
    unfold len. cbn [List.length]. 
    destruct (Z.gtb_spec (Z.of_nat (S (S (S (List.length parts))))) 1);
      [reflexivity|lia].
Qed.

(** ** The request of update_document_status *)

(** X24.  The update expression and its values fit together: the placeholders of
    the expression are exactly the keys of the values, in the same order
    and each once, for every status, count and error message. *)
Theorem update_item_request_placeholders
    (document_id status : string) (chunk_count page_count : Z)
    (error_message : option string) (now : Z) :
  let request := update_item_request document_id status chunk_count
                   page_count error_message now in
  placeholders (update_expression request) =
    map fst (expression_values request) /\
  NoDup (map fst (expression_values request)) /\
  (In ":error_message" (map fst (expression_values request)) <->
   status = "failed" /\ exists message,
     error_message = Some message /\ message <> "").
Proof.
  cbv zeta. unfold update_item_request.
  destruct (String.eqb_spec status "completed") as [->|Hc].
  - cbn [String.eqb andb update_expression expression_values map fst app].
    split; [reflexivity|]. split.
    + repeat constructor; simpl; intuition discriminate.
    + split; [simpl; intuition discriminate|].
      intros [H _]. discriminate H.
  - destruct (String.eqb_spec status "failed") as [->|Hf]; cbn [andb].
    + destruct error_message as [[|c m]|];
        cbn [or_empty truthy update_expression expression_values map fst app].
      * split; [reflexivity|]. split.
        -- repeat constructor; simpl; intuition discriminate.
        -- split; [simpl; intuition discriminate|].
           intros [_ (message & H & Hne)]. injection H as <-. contradiction.
      * split; [reflexivity|]. split.
        -- repeat constructor; simpl; intuition discriminate.
        -- split; [|simpl; auto].
           intros _. split; [reflexivity|].
           exists (String c m). split; [reflexivity|discriminate].
      * split; [reflexivity|]. split.
        -- repeat constructor; simpl; intuition discriminate.
        -- split; [simpl; intuition discriminate|].
           intros [_ (message & H & _)]. discriminate H.
    + cbn [update_expression expression_values map fst app].
      split; [reflexivity|]. split.
      * repeat constructor; simpl; intuition discriminate.
      * split; [simpl; intuition discriminate|].
        intros [H _]. contradiction.
Qed.

(** ** configure_role_mapping *)

Lemma in_list_spec (x : string) (l : list string) :
  in_list x l = true <-> In x l.
Proof.
  unfold in_list. rewrite existsb_exists. split.
  - intros (y & Hy & Heq). apply String.eqb_eq in Heq. now subst.
  - intros H. exists x. split; [exact H|apply String.eqb_refl].
Qed.

(** X25.  The payload keeps what is mapped and adds the role once.  The roles of
    the current mapping stay, in their order; the Lambda role is appended
    when it is not among them and is among the roles of the payload in any
    case; roles that had no duplicates have none afterwards; hosts and users
    are passed on.  Working again from the mapping that the payload holds
    gives the same payload. *)
Theorem role_mapping_payload_adds_role
    (current_mapping : RoleMapping) (lambda_role_arn : string) :
  let before := get (rm_backend_roles current_mapping) [] in
  let payload := role_mapping_payload current_mapping lambda_role_arn in
  In lambda_role_arn (backend_roles payload) /\
  (In lambda_role_arn before -> backend_roles payload = before) /\
  (~ In lambda_role_arn before ->
   backend_roles payload = before ++ [lambda_role_arn]) /\
  (NoDup before -> NoDup (backend_roles payload)) /\
  hosts payload = get (rm_hosts current_mapping) [] /\
  users payload = get (rm_users current_mapping) [] /\
  role_mapping_payload
    (mkRoleMapping (Some (backend_roles payload)) (Some (hosts payload))
       (Some (users payload)))
    lambda_role_arn = payload.
Proof.
  cbv zeta. unfold role_mapping_payload.
  cbn [backend_roles hosts users rm_backend_roles rm_hosts rm_users].
  set (before := get (rm_backend_roles current_mapping) []).
  destruct (in_list lambda_role_arn before) eqn:Hin; cbn [negb].
  - apply in_list_spec in Hin as Hin'.
    repeat split; auto; try contradiction.
    cbn [get]. now rewrite Hin.
  - assert (Hnot : ~ In lambda_role_arn before).
    { intros H. apply in_list_spec in H. congruence. }
    repeat split; auto.
    + apply in_or_app. right. now left.
    + intros H. contradiction.
    + intros Hnd. apply NoDup_app; [exact Hnd|repeat constructor; auto|].
      intros x Hx [<-|[]]. contradiction.
    + cbn [get].
      assert (Hnow : in_list lambda_role_arn (before ++ [lambda_role_arn])
                     = true).
      { apply in_list_spec, in_or_app. right. now left. }
      now rewrite Hnow.
Qed.

(** X26.  What the script does with the answers of the server.  It returns
    [True] exactly when the PUT succeeds, whatever the GET did.  When the
    GET fails, or its response has no ["all_access"], the PUT carries the
    Lambda role alone, with no hosts and no users. *)
Theorem configure_role_mapping_result
    (requests : Requests)
    (endpoint master_user master_password lambda_role_arn : string) :
  let url := role_mapping_url endpoint in
  (configure_role_mapping requests endpoint master_user master_password
     lambda_role_arn = true <->
   requests_put requests url master_user master_password
     (role_mapping_payload
        (current_role_mapping requests endpoint master_user master_password)
        lambda_role_arn) = Ok tt) /\
  ((requests_get requests url master_user master_password = Ok None \/
    exists e, requests_get requests url master_user master_password = Err e) ->
   role_mapping_payload
     (current_role_mapping requests endpoint master_user master_password)
     lambda_role_arn = mkRolePayload [lambda_role_arn] [] []).
Proof.
  cbv zeta. split.
  - unfold configure_role_mapping.
    destruct (requests_put _ _ _ _ _) as [[]|e]; split; congruence.
  - unfold current_role_mapping. intros [->|[e ->]]; reflexivity.
Qed.

(** ** handler *)

Section HandlerFacts.

Variable unquote_plus : string -> string.
Variable extract_text : list Call -> string -> string -> result ExtractResult.

Local Abbreviation record_step := (handle_record unquote_plus extract_text).
Local Abbreviation records_loop :=
  (handle_records unquote_plus extract_text).
Local Abbreviation upload := (upload_of unquote_plus).
Local Abbreviation skipped := (passed_over unquote_plus).

Lemma on_failure_calls (calls : list Call) (bucket key document_id : option string)
    (error : exception) :
  exists new,
    on_failure calls bucket key document_id error = (Failed, calls ++ new) /\
    extract_calls new = [] /\
    (new = [] \/
     new = [HandleFailure (or_empty bucket) (or_empty key)
              (or_empty document_id) error] /\
     or_empty bucket <> "" /\ or_empty document_id <> "").
Proof.
  unfold on_failure.
  destruct (truthy (or_empty bucket)) eqn:Hb; cbn [andb];
    [|exists []; rewrite app_nil_r; auto].
  destruct (truthy (or_empty key)) eqn:Hk; cbn [andb];
    [|exists []; rewrite app_nil_r; auto].
  destruct (truthy (or_empty document_id)) eqn:Hd;
    [|exists []; rewrite app_nil_r; auto].
  eexists. split; [reflexivity|]. split; [reflexivity|]. right.
  split; [reflexivity|]. split; now apply truthy_true.
Qed.

Lemma extract_calls_app (l1 l2 : list Call) :
  extract_calls (l1 ++ l2) = extract_calls l1 ++ extract_calls l2.
Proof.
  induction l1 as [|[ | |] l1 IH]; cbn [app extract_calls]; auto.
  now rewrite IH.
Qed.

Lemma or_empty_some (s : string) : or_empty (Some s) = s.
Proof. now destruct s. Qed.

(** What one record does: how it ends, and the calls it adds. *)
Lemma handle_record_step (calls : list Call) (record : S3Record) :
  exists ending new,
    record_step calls record = (ending, calls ++ new) /\
    (ending = Skipped <-> skipped record = true) /\
    extract_calls new =
      match upload record with Some call => [call] | None => [] end /\
    Forall sound_call new.
Proof.
  unfold handle_record, upload_of, passed_over.
  destruct (rec_bucket record) as [bucket|].
  2:{ destruct (on_failure_calls calls None None None
                  (Exception "KeyError" "s3")) as (new & -> & He & Hnew).
      exists Failed, new. repeat split; try discriminate; auto.
      destruct Hnew as [->|[_ [H _]]]; [constructor|now elim H]. }
  destruct (rec_key record) as [quoted|].
  2:{ destruct (on_failure_calls calls (Some bucket) None None
                  (Exception "KeyError" "s3")) as (new & -> & He & Hnew).
      exists Failed, new. repeat split; try discriminate; auto.
      destruct Hnew as [->|[_ [_ H]]]; [constructor|now elim H]. }
  destruct (startswith (unquote_plus quoted) "uploads/") eqn:Hup; cbn [negb].
  2:{ exists Skipped, []. rewrite app_nil_r. repeat split; auto. }
  set (key := unquote_plus quoted) in *.
  set (started := (calls ++ [UpdateStatus (key_document_id key) "processing"
                               bucket key 0 0]) ++ [ExtractText bucket key]).
  assert (Hsound : forall error new,
            (new = [] \/
             new = [HandleFailure (or_empty (Some bucket))
                      (or_empty (Some key))
                      (or_empty (Some (key_document_id key))) error] /\
             or_empty (Some bucket) <> "" /\
             or_empty (Some (key_document_id key)) <> "") ->
            Forall sound_call new).
  { intros error new [->|[-> [Hb Hd]]]; [constructor|].
    rewrite !or_empty_some in *. repeat constructor; auto. }
  destruct (extract_text started bucket key) as [result|error].
  - destruct (er_pageCount result) as [pages|] eqn:Hpages.
    + exists Processed. eexists. split.
      * unfold started. rewrite <- !app_assoc. reflexivity.
      * repeat split; try discriminate; repeat constructor.
    + destruct (on_failure_calls
                  (started ++ [UpdateStatus (key_document_id key) "completed"
                                 bucket key (get (er_chunkCount result) 0)
                                 (get None 0)])
                  (Some bucket) (Some key) (Some (key_document_id key))
                  (Exception "KeyError" "'pageCount'"))
        as (new & -> & He & Hnew).
      exists Failed. eexists. split.
      * unfold started. rewrite <- !app_assoc. reflexivity.
      * repeat split; try discriminate.
        -- cbn [app extract_calls]. now rewrite He.
        -- repeat constructor. now apply (Hsound _ _ Hnew).
  - destruct (on_failure_calls started (Some bucket) (Some key)
                (Some (key_document_id key)) error)
      as (new & -> & He & Hnew).
    exists Failed. eexists. split.
    + unfold started. rewrite <- !app_assoc. reflexivity.
    + repeat split; try discriminate.
      * cbn [app extract_calls]. now rewrite He.
      * repeat constructor. now apply (Hsound _ _ Hnew).
Qed.

Lemma handle_records_spec (records : list S3Record) :
  forall (p f : Z) (calls : list Call),
  exists p' f' new,
    records_loop records p f calls = (p', f', calls ++ new) /\
    p <= p' /\ f <= f' /\
    (p' - p) + (f' - f) =
      len (filter (fun record => negb (skipped record)) records) /\
    extract_calls new =
      flat_map (fun record => match upload record with
                              | Some call => [call]
                              | None => []
                              end) records /\
    Forall sound_call new.
Proof.
  induction records as [|record rest IH]; intros p f calls.
  - exists p, f, []. rewrite app_nil_r.
    split; [reflexivity|]. split; [lia|]. split; [lia|].
    split; [unfold len; simpl; lia|]. split; [reflexivity|constructor].
  - cbn [handle_records filter flat_map].
    destruct (handle_record_step calls record)
      as (ending & new & -> & Hskip & Hext & Hsound).
    destruct (skipped record) eqn:Hsk; cbn [negb].
    + rewrite (proj2 Hskip eq_refl).
      destruct (IH p f (calls ++ new))
        as (p' & f' & new' & -> & Hp & Hf & Hn & He & Hs).
      exists p', f', (new ++ new'). rewrite app_assoc.
      split; [reflexivity|]. split; [lia|]. split; [lia|].
      split; [exact Hn|]. split; [|now apply Forall_app].
      now rewrite extract_calls_app, Hext, He.
    + assert (Hlen :
        len (record :: filter (fun record => negb (skipped record)) rest) =
        1 + len (filter (fun record => negb (skipped record)) rest))
        by (unfold len; cbn [List.length]; lia).
      rewrite Hlen.
      destruct ending.
      * destruct Hskip as [Hskip _]. specialize (Hskip eq_refl).
        discriminate Hskip.
      * destruct (IH (p + 1) f (calls ++ new))
          as (p' & f' & new' & -> & Hp & Hf & Hn & He & Hs).
        exists p', f', (new ++ new'). rewrite app_assoc.
        split; [reflexivity|]. split; [lia|]. split; [lia|].
        split; [lia|]. split; [|now apply Forall_app].
        now rewrite extract_calls_app, Hext, He.
      * destruct (IH p (f + 1) (calls ++ new))
          as (p' & f' & new' & -> & Hp & Hf & Hn & He & Hs).
        exists p', f', (new ++ new'). rewrite app_assoc.
        split; [reflexivity|]. split; [lia|]. split; [lia|].
        split; [lia|]. split; [|now apply Forall_app].
        now rewrite extract_calls_app, Hext, He.
Qed.

End HandlerFacts.

(** X27.  The response counts every record that is not passed over.  With a
    context that has [aws_request_id], [handler] returns status 200 and the
    JSON of two counts that are not negative and add up to the number of
    records that are malformed or have a key under [uploads/]: each such
    record is counted once, as processed or as failed, and no exception of
    a record leaves the handler.  Without the attribute the handler raises
    [AttributeError] at its first statement, before any call. *)
Theorem handler_counts
    (unquote_plus : string -> string)
    (extract_text : list Call -> string -> string -> result ExtractResult)
    (records : option (list S3Record)) (context : LambdaContext) :
  (aws_request_id context = None ->
   handler unquote_plus extract_text records context =
     (Err (Exception "AttributeError" "aws_request_id"), [])) /\
  (forall request_id,
     aws_request_id context = Some request_id ->
     exists processed_count failed_count calls,
       handler unquote_plus extract_text records context =
         (Ok (200, counts_json processed_count failed_count), calls) /\
       0 <= processed_count /\ 0 <= failed_count /\
       processed_count + failed_count =
         len (filter (fun record => negb (passed_over unquote_plus record))
                (get records []))).
Proof.
  unfold handler. split.
  - now intros ->.
  - intros request_id ->.
    destruct (handle_records_spec unquote_plus extract_text (get records [])
                0 0 []) as (p & f & new & -> & Hp & Hf & Hn & _).
    exists p, f, new. split; [reflexivity|]. repeat split; lia.
Qed.

(** X28.  [extract_text] is called once for each upload and for nothing else:
    once [handler] is past reading [context.aws_request_id], the calls of
    [extract_text] that it makes are, in order, the bucket and unquoted key
    of the records whose lookups return and whose key starts with
    [uploads/]; a failure on one record does not stop the records after it.
    When that first read raises, no call is made. *)
Theorem handler_extracts_uploads
    (unquote_plus : string -> string)
    (extract_text : list Call -> string -> string -> result ExtractResult)
    (records : option (list S3Record)) (context : LambdaContext) :
  extract_calls (snd (handler unquote_plus extract_text records context)) =
  match aws_request_id context with
  | Some _ =>
      flat_map (fun record => match upload_of unquote_plus record with
                              | Some call => [call]
                              | None => []
                              end) (get records [])
  | None => []
  end.
Proof.
  unfold handler. destruct (aws_request_id context); [|reflexivity].
  destruct (handle_records_spec unquote_plus extract_text (get records [])
              0 0 []) as (p & f & new & -> & _ & _ & _ & He & _).
  exact He.
Qed.

(** X29.  Failure handling needs a document id.  Every call of
    [handle_processing_failure] that [handler] makes is for a bucket that is
    not empty and a key under [uploads/], with the document id of that key,
    which is not empty: a record whose lookups fail, or whose key has
    nothing between the first two slashes, is counted as failed without
    being handled. *)
Theorem handler_failure_calls
    (unquote_plus : string -> string)
    (extract_text : list Call -> string -> string -> result ExtractResult)
    (records : option (list S3Record)) (context : LambdaContext)
    (bucket key document_id : string) (error : exception) :
  In (HandleFailure bucket key document_id error)
     (snd (handler unquote_plus extract_text records context)) ->
  bucket <> "" /\ startswith key "uploads/" = true /\
  document_id = key_document_id key /\ document_id <> "".
Proof.
  unfold handler. destruct (aws_request_id context); [|intros []].
  destruct (handle_records_spec unquote_plus extract_text (get records [])
              0 0 []) as (p & f & new & -> & _ & _ & _ & _ & Hs).
  cbn [snd app]. intros Hin. rewrite Forall_forall in Hs.
  exact (Hs _ Hin).
Qed.

(** ** The further properties at concrete inputs *)

Lemma chunk_text_window_count_witness :
  exists chunks,
    chunk_text 10 CharTokenizer.tiktoken sample_text sample_pages "doc"
      no_metadata 4 1 = Returned chunks /\
    len chunks = 3.
Proof.
  destruct (chunk_text_window_count CharTokenizer.tiktoken
              CharTokenizer.encoding sample_text
              (CharTokenizer.codes sample_text) sample_pages "doc"
              no_metadata 4 1 eq_refl eq_refl)
    as (chunks & Hret & _ & _ & Hcount); [lia|].
  exists chunks. split.
  - apply Hret. vm_compute. lia.
  - rewrite Hcount; [reflexivity|]. vm_compute. reflexivity.
Defined.

Lemma chunk_text_more_overlap_more_chunks_witness :
  exists chunks1 chunks2,
    chunk_text 10 CharTokenizer.tiktoken sample_text sample_pages "doc"
      no_metadata 4 0 = Returned chunks1 /\
    chunk_text 10 CharTokenizer.tiktoken sample_text sample_pages "doc"
      no_metadata 4 3 = Returned chunks2 /\
    (List.length chunks1 <= List.length chunks2)%nat.
Proof.
  destruct (chunk_text_more_overlap_more_chunks CharTokenizer.tiktoken
              CharTokenizer.encoding sample_text
              (CharTokenizer.codes sample_text) sample_pages "doc"
              no_metadata 4 0 3 eq_refl eq_refl)
    as (chunks1 & chunks2 & H1 & H2 & Hle); [lia|lia|].
  exists chunks1, chunks2. split; [|split; [|exact Hle]].
  - apply H1. vm_compute. lia.
  - apply H2. vm_compute. lia.
Defined.

Lemma chunk_text_chunk_ids_unique_witness :
  exists chunks,
    chunk_text 10 CharTokenizer.tiktoken sample_text sample_pages "doc"
      no_metadata 4 1 = Returned chunks /\
    NoDup (map chunkId chunks).
Proof.
  eexists. split; [vm_compute; reflexivity|].
  apply (chunk_text_chunk_ids_unique CharTokenizer.tiktoken sample_text
           sample_pages "doc" no_metadata 4 1 10%nat).
  vm_compute. reflexivity.
Defined.

Lemma chunk_text_chunks_progress_witness :
  exists chunks,
    chunk_text 10 CharTokenizer.tiktoken sample_text sample_pages "doc"
      no_metadata 4 1 = Returned chunks /\
    forall i c,
      nth_error chunks i = Some c ->
      0 <= startToken c < endToken c /\ 1 <= tokenCount c.
Proof.
  destruct (chunk_text_chunks_progress CharTokenizer.tiktoken
              CharTokenizer.encoding sample_text
              (CharTokenizer.codes sample_text) sample_pages "doc"
              no_metadata 4 1 eq_refl eq_refl)
    as (chunks & Hret & Hbounds & _); [lia|].
  exists chunks. split.
  - apply Hret. vm_compute. lia.
  - intros i c Hc. destruct (Hbounds i c Hc) as (H1 & _ & H2). now split.
Defined.

Lemma chunk_text_chunk_content_witness :
  exists chunks,
    chunk_text 10 CharTokenizer.tiktoken sample_text sample_pages "doc"
      no_metadata 4 1 = Returned chunks /\
    forall i c,
      nth_error chunks i = Some c ->
      text c =
        CharTokenizer.chars
          (firstn (Z.to_nat (endToken c - startToken c))
             (skipn (Z.to_nat (startToken c))
                (CharTokenizer.codes sample_text))).
Proof.
  destruct (chunk_text_chunk_content CharTokenizer.tiktoken
              CharTokenizer.encoding sample_text
              (CharTokenizer.codes sample_text) sample_pages "doc"
              no_metadata 4 1 eq_refl eq_refl)
    as (chunks & Hret & Hcontent); [lia|].
  exists chunks. split.
  - apply Hret. vm_compute. lia.
  - intros i c Hc. exact (proj1 (Hcontent i c Hc)).
Defined.

Lemma chunk_text_raises_iff_witness :
  chunk_text 0 FailingTokenizer.tiktoken sample_text sample_pages "doc"
    no_metadata 4 1 = Raised FailingTokenizer.error.
Proof.
  apply (proj2 (chunk_text_raises_iff FailingTokenizer.tiktoken sample_text
                  sample_pages "doc" no_metadata 4 1 0
                  FailingTokenizer.error)).
  left. reflexivity.
Defined.

Lemma chunk_text_chunk_metadata_witness :
  exists chunks,
    chunk_text 10 CharTokenizer.tiktoken sample_text sample_pages "doc"
      no_metadata 4 1 = Returned chunks /\
    forall c, In c chunks ->
      documentId c = "doc" /\
      filename (metadata c) = "unknown.pdf" /\
      uploadedBy (metadata c) = "system" /\
      uploadedAt (metadata c) = 0 /\
      pageCount (metadata c) = 0.
Proof.
  eexists. split; [vm_compute; reflexivity|].
  apply (chunk_text_chunk_metadata CharTokenizer.tiktoken sample_text
           sample_pages "doc" no_metadata 4 1 10%nat).
  vm_compute. reflexivity.
Defined.

Lemma chunk_text_page_numbers_valid_witness :
  exists chunks,
    chunk_text 10 CharTokenizer.tiktoken sample_text sample_pages "doc"
      no_metadata 4 1 = Returned chunks /\
    forall c, In c chunks ->
      (sample_pages = [] -> pageNumber c = 1) /\
      (sample_pages <> [] ->
       In (pageNumber c)
          (map (fun p => get (pd_pageNumber p) 1) sample_pages)).
Proof.
  eexists. split; [vm_compute; reflexivity|].
  apply (chunk_text_page_numbers_valid CharTokenizer.tiktoken sample_text
           sample_pages "doc" no_metadata 4 1 10%nat).
  vm_compute. reflexivity.
Defined.

Lemma get_page_number_for_position_in_map_witness :
  In (get_page_number_for_position 100 (build_page_map sample_pages))
     (map page_number (build_page_map sample_pages)).
Proof.
  apply (proj2 (get_page_number_for_position_in_map 100
                  (build_page_map sample_pages))).
  discriminate.
Defined.

Lemma build_page_map_shape_witness :
  exists span,
    nth_error (build_page_map sample_pages) 1 = Some span /\
    page_number span = 2 /\
    0 <= start_pos span /\
    end_pos span - start_pos span = 4.
Proof.
  eexists. split; [reflexivity|].
  exact (proj2 (build_page_map_shape sample_pages) 1%nat _ (page 2 "efgh")
           eq_refl eq_refl).
Defined.

Lemma build_page_map_lookup_inside_witness :
  get_page_number_for_position 7 (build_page_map sample_pages) = 2.
Proof.
  apply (build_page_map_lookup_inside sample_pages 1 (mkPageInfo 6 10 2) 7).
  - reflexivity.
  - simpl. lia.
Defined.

Lemma build_page_map_empty_page_unreachable_witness :
  start_pos (mkPageInfo 0 0 1) = end_pos (mkPageInfo 0 0 1) /\
  forall char_pos, contains (mkPageInfo 0 0 1) char_pos = false.
Proof.
  apply (build_page_map_empty_page_unreachable [page 1 ""; page 2 "ab"] 0
           (mkPageInfo 0 0 1) (page 1 "")).
  - reflexivity.
  - reflexivity.
  - reflexivity.
Defined.

Lemma build_page_map_spans_text_witness :
  substring 6 4 sample_text = "efgh".
Proof.
  apply (build_page_map_spans_text (page 1 "abcd") [page 2 "efgh"] 1
           (mkPageInfo 6 10 2) (page 2 "efgh")).
  - reflexivity.
  - reflexivity.
  - reflexivity.
Defined.

Lemma format_tables_labels_witness :
  In (format_table 2 [[Some "a"; None]])
     (format_tables_loop [[]; [[Some "a"; None]]] 1 []).
Proof.
  apply (proj1 (proj2 (format_tables_labels [[]; [[Some "a"; None]]]))
           1%nat).
  - reflexivity.
  - discriminate.
Defined.

Lemma format_tables_empty_iff_witness : format_tables [[]; []] = "".
Proof.
  apply (proj2 (format_tables_empty_iff [[]; []])).
  repeat constructor.
Defined.

Lemma extract_text_from_pdf_page_numbers_witness :
  exists pages_data,
    extract_text_from_pdf sample_pdfplumber "" = Ok pages_data /\
    List.length pages_data = 3%nat /\
    forall i entry,
      nth_error pages_data i = Some entry ->
      pd_pageNumber (ep_page entry) = Some (Z.of_nat i + 1).
Proof.
  exact (proj2 (extract_text_from_pdf_page_numbers sample_pdfplumber "")
           sample_pdf_pages eq_refl).
Defined.

Lemma extract_text_from_pdf_failed_page_witness :
  exists pages_data entry,
    extract_text_from_pdf sample_pdfplumber "" = Ok pages_data /\
    nth_error pages_data 1 = Some entry /\
    pd_text (ep_page entry) = Some "" /\
    ep_error entry = Some "bad page" /\
    pd_hasTable (ep_page entry) = None /\
    pd_tableCount (ep_page entry) = None.
Proof.
  apply (extract_text_from_pdf_failed_page sample_pdfplumber ""
           sample_pdf_pages 1
           (mkPdfPage (Err (Exception "ValueError" "bad page")) (Ok []))
           (Exception "ValueError" "bad page")).
  - reflexivity.
  - reflexivity.
  - left. reflexivity.
Defined.

Lemma extract_text_from_pdf_text_stripped_witness :
  exists t,
    pd_text (ep_page (extract_page 1
                        (mkPdfPage (Ok (Some " first page ")) (Ok []))))
      = Some t /\
    strip t = t.
Proof.
  apply (extract_text_from_pdf_text_stripped sample_pdfplumber ""
           (extract_pages_loop sample_pdf_pages 1 [])).
  - reflexivity.
  - left. reflexivity.
Defined.

Lemma extract_text_from_pdf_table_page_has_text_witness :
  exists t,
    pd_text (ep_page (extract_page 3
                        (mkPdfPage (Ok None) (Ok [[]; [[Some "a"; None]]]))))
      = Some t /\
    t <> "" /\
    pd_hasTable (ep_page (extract_page 3
                            (mkPdfPage (Ok None)
                               (Ok [[]; [[Some "a"; None]]]))))
      = Some true.
Proof.
  apply (extract_text_from_pdf_table_page_has_text 3
           (mkPdfPage (Ok None) (Ok [[]; [[Some "a"; None]]])) None
           [[]; [[Some "a"; None]]]).
  - reflexivity.
  - reflexivity.
  - intros H. inversion H as [|? ? _ Hrest]. inversion Hrest as [|? ? Hne _].
    discriminate Hne.
Defined.

Lemma extracted_chunks_page_numbers_witness :
  exists chunks,
    chunk_text 50 CharTokenizer.tiktoken
      (full_text (map ep_page (extract_pages_loop sample_pdf_pages 1 [])))
      (map ep_page (extract_pages_loop sample_pdf_pages 1 [])) "doc"
      no_metadata 8 2 = Returned chunks /\
    forall c, In c chunks ->
      (sample_pdf_pages = [] -> pageNumber c = 1) /\
      (sample_pdf_pages <> [] -> 1 <= pageNumber c <= len sample_pdf_pages).
Proof.
  eexists. split; [vm_compute; reflexivity|].
  apply (extracted_chunks_page_numbers sample_pdfplumber "" sample_pdf_pages
           (extract_pages_loop sample_pdf_pages 1 [])
           CharTokenizer.tiktoken "doc" no_metadata 8 2 50%nat).
  - reflexivity.
  - reflexivity.
  - vm_compute. reflexivity.
Defined.

Lemma key_filename_after_last_slash_witness :
  key_filename "a.pdf" = "a.pdf" /\
  key_filename ("uploads/d1" ++ "/" ++ "a.pdf") = "a.pdf".
Proof.
  apply (key_filename_after_last_slash "uploads/d1" "a.pdf").
  intros H. simpl in H. intuition discriminate.
Defined.

Lemma key_document_id_second_part_witness :
  key_document_id "uploads" = "unknown" /\
  key_document_id ("uploads" ++ "/" ++ "d1") = "d1" /\
  key_document_id ("uploads" ++ "/" ++ "d1" ++ "/" ++ "a.pdf") = "d1".
Proof.
  apply (key_document_id_second_part "uploads" "d1" "a.pdf").
  - intros H. simpl in H. intuition discriminate.
  - intros H. simpl in H. intuition discriminate.
Defined.

Lemma update_item_request_placeholders_witness :
  In ":error_message"
     (map fst (expression_values
                 (update_item_request "d1" "failed" 0 0 (Some "boom") 5))).
Proof.
  apply (proj2 (proj2 (update_item_request_placeholders "d1" "failed" 0 0
                         (Some "boom") 5))).
  split; [reflexivity|]. exists "boom". split; [reflexivity|discriminate].
Defined.

Lemma role_mapping_payload_adds_role_witness :
  backend_roles
    (role_mapping_payload (mkRoleMapping (Some ["a"]) None None) "b") =
  ["a"] ++ ["b"].
Proof.
  pose proof (role_mapping_payload_adds_role
                (mkRoleMapping (Some ["a"]) None None) "b") as H.
  cbv zeta in H. destruct H as (_ & _ & H & _). apply H.
  simpl. intuition discriminate.
Defined.

Lemma configure_role_mapping_result_witness :
  role_mapping_payload
    (current_role_mapping sample_requests "host" "admin" "secret") "arn" =
  mkRolePayload ["arn"] [] [].
Proof.
  apply (proj2 (configure_role_mapping_result sample_requests "host" "admin"
                  "secret" "arn")).
  right. eexists. reflexivity.
Defined.

Lemma handler_counts_witness :
  exists processed_count failed_count calls,
    handler (fun s => s) sample_extract (Some sample_records) sample_context =
      (Ok (200, counts_json processed_count failed_count), calls) /\
    0 <= processed_count /\ 0 <= failed_count /\
    processed_count + failed_count = 4.
Proof.
  exact (proj2 (handler_counts (fun s => s) sample_extract
                  (Some sample_records) sample_context)
           "request-1" eq_refl).
Defined.

Lemma handler_failure_calls_witness :
  "bucket" <> "" /\
  startswith "uploads/d2/b.pdf" "uploads/" = true /\
  "d2" = key_document_id "uploads/d2/b.pdf" /\
  "d2" <> "".
Proof.
  apply (handler_failure_calls (fun s => s) sample_extract
           (Some sample_records) sample_context "bucket" "uploads/d2/b.pdf"
           "d2" (Exception "PDFSyntaxError" "no pages")).
  vm_compute. repeat (try (left; reflexivity); right).
Defined.
